(** * pykaniko: the [Kaniko] build wrapper of [kaniko/kaniko.py]

    A shallow embedding of the [Kaniko] class and of
    [KanikoBuildException], followed by the properties of
    [configure], [shell_command], [_write_config], [_parse_logs] and
    [build].

    Python objects are dynamically typed, so attribute values are
    modelled by one type [value]; Python text is a sequence of Unicode
    code points; the instance [__dict__] is a finite map; exceptions
    are explicit results. *)

From Stdlib Require Import ZArith NArith List String Ascii Lia.
From Stdlib.Strings Require Import Byte.
From Stdlib Require DecimalString.
From stdpp Require Import gmap strings list.

Local Open Scope N_scope.

(** ** Text

    A Python [str] is a sequence of code points.  [lit] turns an ASCII
    literal of this file into such a sequence. *)

Definition str := list N.

Definition lit (s : string) : str := map N_of_ascii (list_ascii_of_string s).
Arguments lit : simpl never.

(** [str(n)] for an [int]: decimal digits with a leading minus sign. *)
Definition str_of_int (n : Z) : str :=
  lit (DecimalString.NilZero.string_of_int (Z.to_int n)).

(** [sep.join(rows)] *)
Fixpoint str_join (sep : str) (rows : list str) : str :=
  match rows with
  | [] => []
  | r :: rest =>
      match rest with
      | [] => r
      | _ :: _ => r ++ sep ++ str_join sep rest
      end
  end.

(** [s.startswith(prefix)] *)
Fixpoint startswith (prefix s : str) : bool :=
  match prefix, s with
  | [], _ => true
  | _ :: _, [] => false
  | p :: prefix', c :: s' => (p =? c) && startswith prefix' s'
  end.

(** [s.endswith(suffix)] *)
Definition endswith (suffix s : str) : bool :=
  startswith (rev suffix) (rev s).

(** The order Python sorts strings by: lexicographic on code points,
    a proper prefix first. *)
Fixpoint str_compare (a b : str) : comparison :=
  match a, b with
  | [], [] => Eq
  | [], _ :: _ => Lt
  | _ :: _, [] => Gt
  | x :: a', y :: b' =>
      match x ?= y with
      | Eq => str_compare a' b'
      | c => c
      end
  end.

(** [str.split(sep)] for the one-character separator the code uses:
    every separator ends a field, empty fields are kept, and the result
    always has a last field. *)
Fixpoint split (sep : N) (s : str) : list str :=
  match s with
  | [] => [[]]
  | c :: s' =>
      if c =? sep then [] :: split sep s'
      else match split sep s' with
           | [] => [[c]]
           | field :: fields => (c :: field) :: fields
           end
  end.

(** Code points [str.strip()] removes: those for which Python's
    [str.isspace] holds. *)
Definition isspace (c : N) : bool :=
  ((0x09 <=? c) && (c <=? 0x0D)) || ((0x1C <=? c) && (c <=? 0x20))
  || (c =? 0x85) || (c =? 0xA0) || (c =? 0x1680)
  || ((0x2000 <=? c) && (c <=? 0x200A))
  || (c =? 0x2028) || (c =? 0x2029) || (c =? 0x202F) || (c =? 0x205F)
  || (c =? 0x3000).

Fixpoint lstrip (s : str) : str :=
  match s with
  | [] => []
  | c :: s' => if isspace c then lstrip s' else s
  end.

Definition rstrip (s : str) : str := rev (lstrip (rev s)).

(** [s.strip()] *)
Definition strip (s : str) : str := rstrip (lstrip s).

(** ** The enumerations *)

Module KanikoSnapshotMode.
Inductive t := full | time.

Definition value (m : t) : str :=
  match m with
  | full => lit "full"
  | time => lit "time"
  end.

(** [str(member)] of a plain [Enum]: class name, dot, member name. *)
Definition to_str (m : t) : str :=
  lit "KanikoSnapshotMode." ++
  match m with
  | full => lit "full"
  | time => lit "time"
  end.
End KanikoSnapshotMode.

Module KanikoVerbosity.
Inductive t := panic | fatal | error | warn | info | debug.

Definition value (v : t) : str :=
  match v with
  | panic => lit "panic"
  | fatal => lit "fatal"
  | error => lit "error"
  | warn => lit "warn"
  | info => lit "info"
  | debug => lit "debug"
  end.

Definition to_str (v : t) : str :=
  lit "KanikoVerbosity." ++
  match v with
  | panic => lit "panic"
  | fatal => lit "fatal"
  | error => lit "error"
  | warn => lit "warn"
  | info => lit "info"
  | debug => lit "debug"
  end.
End KanikoVerbosity.

(** ** The exception of the module *)

Module KanikoBuildException.
(** [message] is the argument handed to [Exception.__init__], which
    is what [str(exception)] shows. *)
Record t := Build { exit_code : Z; body : list str; message : str }.

Definition __init__ (exit_code : Z) (body : list str) : t :=
  let body_string := str_join [0x0A] body in
  {| exit_code := exit_code;
     body := body;
     message := lit "Kaniko failed with exit code " ++ str_of_int exit_code
                ++ lit ": " ++ body_string |}.
End KanikoBuildException.

(** ** Results of running Python code

    A computation returns, raises, or leaves the fragment of Python
    this development describes ([Unmodelled]: the text Python prints
    for a list, a tuple or a function object, and attributes whose
    names have the form [__x__]).  [OSError] stands for the class
    with its subclasses ([FileExistsError], [PermissionError], ...). *)

Inductive exn :=
| TypeError
| AttributeError
| ValueError
| UnicodeEncodeError
| UnicodeDecodeError
| OSError
| BuildFailed (e : KanikoBuildException.t).

Inductive M (A : Type) :=
| Ok (a : A)
| Raise (e : exn)
| Unmodelled.
Arguments Ok {A} a.
Arguments Raise {A} e.
Arguments Unmodelled {A}.

#[global] Instance M_ret : MRet M := fun A a => Ok a.
#[global] Instance M_bind : MBind M := fun A B f m =>
  match m with
  | Ok a => f a
  | Raise e => Raise e
  | Unmodelled => Unmodelled
  end.
#[global] Instance M_fmap : FMap M := fun A B f m =>
  match m with
  | Ok a => Ok (f a)
  | Raise e => Raise e
  | Unmodelled => Unmodelled
  end.

(** ** Values

    The values a setting holds in this development.  Python has more
    (bytes, floats, path objects, dicts, objects of other classes):
    they are not among these, and no property below speaks of a
    setting that holds one. *)

#[warnings="-register-all"]
Inductive value :=
| VNone
| VBool (b : bool)
| VInt (n : Z)
| VStr (s : str)
| VList (items : list value)
| VTuple (items : list value)
| VSnapshotMode (m : KanikoSnapshotMode.t)
| VVerbosity (v : KanikoVerbosity.t)
| VFunction.

(** Truth value, as tested by [if x:]. *)
Definition truthy (x : value) : bool :=
  match x with
  | VNone => false
  | VBool b => b
  | VInt n => negb (n =? 0)%Z
  | VStr s => match s with [] => false | _ :: _ => true end
  | VList items | VTuple items => match items with [] => false | _ :: _ => true end
  | VSnapshotMode _ | VVerbosity _ | VFunction => true
  end.

(** [isinstance(x, Callable)] *)
Definition callable (x : value) : bool :=
  match x with
  | VFunction => true
  | _ => false
  end.

(** [isinstance(x, list)] *)
Definition isinstance_list (x : value) : bool :=
  match x with
  | VList _ => true
  | _ => false
  end.

(** The text an f-string substitutes for [{x}]. *)
Definition format_value (x : value) : M str :=
  match x with
  | VNone => Ok (lit "None")
  | VBool true => Ok (lit "True")
  | VBool false => Ok (lit "False")
  | VInt n => Ok (str_of_int n)
  | VStr s => Ok s
  | VSnapshotMode m => Ok (KanikoSnapshotMode.to_str m)
  | VVerbosity v => Ok (KanikoVerbosity.to_str v)
  | VList _ | VTuple _ | VFunction => Unmodelled
  end.

(** The elements [for arg in x] visits. *)
Definition py_iter (x : value) : M (list value) :=
  match x with
  | VList items | VTuple items => Ok items
  | VStr s => Ok (map (fun c => VStr [c]) s)
  | _ => Raise TypeError
  end.

(** [x.value] *)
Definition dot_value (x : value) : M value :=
  match x with
  | VSnapshotMode m => Ok (VStr (KanikoSnapshotMode.value m))
  | VVerbosity v => Ok (VStr (KanikoVerbosity.value v))
  | _ => Raise AttributeError
  end.

(** [x + suffix] for a string literal [suffix]. *)
Definition add_str (x : value) (suffix : str) : M str :=
  match x with
  | VStr s => Ok (s ++ suffix)
  | _ => Raise TypeError
  end.

(** ** The class

    The names the class body binds, in the order of the source, with
    what each is bound to: plain data (the default of a setting), a
    function (a method) or a [property].  The names Python itself adds
    to a class, and those inherited from [object], all have the form
    [__x__] and are left out. *)

Inductive member :=
| Data (default : value)
| Method
| Property.

Definition class_dict : list (str * member) :=
  [ (lit "docker_registry_uri", Data VNone);
    (lit "registry_username", Data VNone);
    (lit "registry_password", Data VNone);
    (lit "build_args", Data (VList []));
    (lit "context", Data VNone);
    (lit "cache", Data (VBool false));
    (lit "cache_dir", Data VNone);
    (lit "cache_repo", Data VNone);
    (lit "destination", Data VNone);
    (lit "digest_file", Data VNone);
    (lit "dockerfile", Data VNone);
    (lit "force", Data (VBool false));
    (lit "oci_layout_path", Data VNone);
    (lit "insecure_registry", Data (VList []));
    (lit "skip_tls_verify_registry", Data (VList []));
    (lit "cleanup", Data (VBool false));
    (lit "insecure", Data (VBool false));
    (lit "insecure_pull", Data (VBool false));
    (lit "no_push", Data (VBool false));
    (lit "reproducible", Data (VBool false));
    (lit "single_snapshot", Data (VBool false));
    (lit "skip_tls_verify", Data (VBool false));
    (lit "skip_tls_verify_pull", Data (VBool false));
    (lit "snapshot_mode", Data VNone);
    (lit "target", Data VNone);
    (lit "tar_path", Data VNone);
    (lit "verbosity", Data VNone);
    (lit "kaniko_path", Data (VStr (lit "/kaniko")));
    (lit "build", Method);
    (lit "configure", Method);
    (lit "shell_command", Property);
    (lit "_is_callable", Method);
    (lit "_make_config", Method);
    (lit "_write_config", Method);
    (lit "_parse_logs", Method);
    (lit "_shell_part_handlers", Property);
    (lit "_get_shell_part_build_args", Method);
    (lit "_get_shell_part_context", Method);
    (lit "_get_shell_part_cache", Method);
    (lit "_get_shell_part_cache_dir", Method);
    (lit "_get_shell_part_cache_repo", Method);
    (lit "_get_shell_part_destination", Method);
    (lit "_get_shell_part_digest_file", Method);
    (lit "_get_shell_part_dockerfile", Method);
    (lit "_get_shell_part_force", Method);
    (lit "_get_shell_part_oci_layout_path", Method);
    (lit "_get_shell_part_insecure_registry", Method);
    (lit "_get_shell_part_skip_tls_verify_registry", Method);
    (lit "_get_shell_part_cleanup", Method);
    (lit "_get_shell_part_insecure", Method);
    (lit "_get_shell_part_insecure_pull", Method);
    (lit "_get_shell_part_no_push", Method);
    (lit "_get_shell_part_reproducible", Method);
    (lit "_get_shell_part_single_snapshot", Method);
    (lit "_get_shell_part_skip_tls_verify", Method);
    (lit "_get_shell_part_skip_tls_verify_pull", Method);
    (lit "_get_shell_part_snapshot_mode", Method);
    (lit "_get_shell_part_target", Method);
    (lit "_get_shell_part_tar_path", Method);
    (lit "_get_shell_part_verbosity", Method) ].

Fixpoint assoc {A : Type} (name : str) (l : list (str * A)) : option A :=
  match l with
  | [] => None
  | (k, a) :: rest => if decide (k = name) then Some a else assoc name rest
  end.

Definition class_lookup (name : str) : option member := assoc name class_dict.

(** ** The object

    An instance owns the tuple [_configure_attribute_names] that
    [__init__] stores, and the attributes [setattr] has created since,
    kept in [__dict__]. *)

Record Kaniko := {
  _configure_attribute_names : list str;
  __dict__ : gmap str value
}.

(** [Kaniko()] *)
Definition __init__ : Kaniko :=
  {| _configure_attribute_names :=
       List.filter (fun key => negb (startswith (lit "_") key)) (map fst class_dict);
     __dict__ := ∅ |}.

(** [self.name] for a name the class binds to plain data: the
    instance attribute if there is one, the class attribute otherwise. *)
Definition read (self : Kaniko) (name : str) : M value :=
  match __dict__ self !! name with
  | Some v => Ok v
  | None =>
      match class_lookup name with
      | Some (Data default) => Ok default
      | _ => Raise AttributeError
      end
  end.

(** ** The handlers of [shell_command]

    Each [_get_shell_part_*] method receives the list [command] and
    appends to it.  The methods follow four shapes, written once here:
    a loop over a list setting, a test of a boolean flag, a test of an
    optional setting, and the same with [.value] for an enumeration. *)

Definition handler := Kaniko -> list str -> M (list str).

(** [command.append(token)] *)
Definition append (command : list str) (token : str) : list str :=
  command ++ [token].

(** [for arg in args: command.append(f'{flag}{arg}')] *)
Fixpoint append_each (flag : str) (args : list value) (command : list str)
  : M (list str) :=
  match args with
  | [] => Ok command
  | arg :: rest =>
      text ← format_value arg;
      append_each flag rest (append command (flag ++ text))
  end.

(** [for arg in x: command.append(f'{flag}{arg}')] *)
Definition for_each_append (flag : str) (x : value) (command : list str)
  : M (list str) :=
  args ← py_iter x;
  append_each flag args command.

(** [if x: command.append(flag)] *)
Definition if_append_flag (flag : str) (x : value) (command : list str)
  : M (list str) :=
  if truthy x then Ok (append command flag) else Ok command.

(** [if x: command.append(f'{flag}{x}')] *)
Definition if_append (flag : str) (x : value) (command : list str)
  : M (list str) :=
  if truthy x then
    text ← format_value x;
    Ok (append command (flag ++ text))
  else Ok command.

(** [if x: command.append(f'{flag}{x.value}')] *)
Definition if_append_value (flag : str) (x : value) (command : list str)
  : M (list str) :=
  if truthy x then
    member_value ← dot_value x;
    text ← format_value member_value;
    Ok (append command (flag ++ text))
  else Ok command.

Definition _get_shell_part_build_args : handler := fun self command =>
  build_args ← read self (lit "build_args");
  for_each_append (lit "--build-arg=") build_args command.

Definition _get_shell_part_context : handler := fun self command =>
  context ← read self (lit "context");
  if_append (lit "--context=") context command.

Definition _get_shell_part_cache : handler := fun self command =>
  cache ← read self (lit "cache");
  if_append_flag (lit "--cache") cache command.

Definition _get_shell_part_cache_dir : handler := fun self command =>
  cache_dir ← read self (lit "cache_dir");
  if_append (lit "--cache-dir=") cache_dir command.

Definition _get_shell_part_cache_repo : handler := fun self command =>
  cache_repo ← read self (lit "cache_repo");
  if_append (lit "--cache-repo=") cache_repo command.

Definition _get_shell_part_destination : handler := fun self command =>
  destination ← read self (lit "destination");
  if truthy destination then
    if isinstance_list destination then
      for_each_append (lit "--destination=") destination command
    else
      text ← format_value destination;
      Ok (append command (lit "--destination=" ++ text))
  else Ok command.

Definition _get_shell_part_digest_file : handler := fun self command =>
  digest_file ← read self (lit "digest_file");
  if_append (lit "--digest-file=") digest_file command.

Definition _get_shell_part_dockerfile : handler := fun self command =>
  dockerfile ← read self (lit "dockerfile");
  if_append (lit "--dockerfile=") dockerfile command.

Definition _get_shell_part_force : handler := fun self command =>
  force ← read self (lit "force");
  if_append_flag (lit "--force") force command.

Definition _get_shell_part_oci_layout_path : handler := fun self command =>
  oci_layout_path ← read self (lit "oci_layout_path");
  if_append (lit "--oci-layout-path=") oci_layout_path command.

Definition _get_shell_part_insecure_registry : handler := fun self command =>
  insecure_registry ← read self (lit "insecure_registry");
  for_each_append (lit "--insecure-registry=") insecure_registry command.

Definition _get_shell_part_skip_tls_verify_registry : handler := fun self command =>
  skip_tls_verify_registry ← read self (lit "skip_tls_verify_registry");
  for_each_append (lit "--skip-tls-verify-registry=") skip_tls_verify_registry command.

Definition _get_shell_part_cleanup : handler := fun self command =>
  cleanup ← read self (lit "cleanup");
  if_append_flag (lit "--cleanup") cleanup command.

Definition _get_shell_part_insecure : handler := fun self command =>
  insecure ← read self (lit "insecure");
  if_append_flag (lit "--insecure") insecure command.

Definition _get_shell_part_insecure_pull : handler := fun self command =>
  insecure_pull ← read self (lit "insecure_pull");
  if_append_flag (lit "--insecure-pull") insecure_pull command.

Definition _get_shell_part_no_push : handler := fun self command =>
  no_push ← read self (lit "no_push");
  if_append_flag (lit "--no-push") no_push command.

Definition _get_shell_part_reproducible : handler := fun self command =>
  reproducible ← read self (lit "reproducible");
  if_append_flag (lit "--reproducible") reproducible command.

Definition _get_shell_part_single_snapshot : handler := fun self command =>
  single_snapshot ← read self (lit "single_snapshot");
  if_append_flag (lit "--single-snapshot") single_snapshot command.

Definition _get_shell_part_skip_tls_verify : handler := fun self command =>
  skip_tls_verify ← read self (lit "skip_tls_verify");
  if_append_flag (lit "--skip-tls-verify") skip_tls_verify command.

Definition _get_shell_part_skip_tls_verify_pull : handler := fun self command =>
  skip_tls_verify_pull ← read self (lit "skip_tls_verify_pull");
  if_append_flag (lit "--skip-tls-verify-pull") skip_tls_verify_pull command.

Definition _get_shell_part_snapshot_mode : handler := fun self command =>
  snapshot_mode ← read self (lit "snapshot_mode");
  if_append_value (lit "--snapshotMode=") snapshot_mode command.

Definition _get_shell_part_target : handler := fun self command =>
  target ← read self (lit "target");
  if_append (lit "--target=") target command.

Definition _get_shell_part_tar_path : handler := fun self command =>
  tar_path ← read self (lit "tar_path");
  if_append (lit "--tarPath=") tar_path command.

Definition _get_shell_part_verbosity : handler := fun self command =>
  verbosity ← read self (lit "verbosity");
  if_append_value (lit "--verbosity=") verbosity command.

(** The functions behind the method names, for [getattr(self, handler)]. *)
Definition shell_part_methods : list (str * handler) :=
  [ (lit "_get_shell_part_build_args", _get_shell_part_build_args);
    (lit "_get_shell_part_context", _get_shell_part_context);
    (lit "_get_shell_part_cache", _get_shell_part_cache);
    (lit "_get_shell_part_cache_dir", _get_shell_part_cache_dir);
    (lit "_get_shell_part_cache_repo", _get_shell_part_cache_repo);
    (lit "_get_shell_part_destination", _get_shell_part_destination);
    (lit "_get_shell_part_digest_file", _get_shell_part_digest_file);
    (lit "_get_shell_part_dockerfile", _get_shell_part_dockerfile);
    (lit "_get_shell_part_force", _get_shell_part_force);
    (lit "_get_shell_part_oci_layout_path", _get_shell_part_oci_layout_path);
    (lit "_get_shell_part_insecure_registry", _get_shell_part_insecure_registry);
    (lit "_get_shell_part_skip_tls_verify_registry",
      _get_shell_part_skip_tls_verify_registry);
    (lit "_get_shell_part_cleanup", _get_shell_part_cleanup);
    (lit "_get_shell_part_insecure", _get_shell_part_insecure);
    (lit "_get_shell_part_insecure_pull", _get_shell_part_insecure_pull);
    (lit "_get_shell_part_no_push", _get_shell_part_no_push);
    (lit "_get_shell_part_reproducible", _get_shell_part_reproducible);
    (lit "_get_shell_part_single_snapshot", _get_shell_part_single_snapshot);
    (lit "_get_shell_part_skip_tls_verify", _get_shell_part_skip_tls_verify);
    (lit "_get_shell_part_skip_tls_verify_pull", _get_shell_part_skip_tls_verify_pull);
    (lit "_get_shell_part_snapshot_mode", _get_shell_part_snapshot_mode);
    (lit "_get_shell_part_target", _get_shell_part_target);
    (lit "_get_shell_part_tar_path", _get_shell_part_tar_path);
    (lit "_get_shell_part_verbosity", _get_shell_part_verbosity) ].

(** ** [dir], [_shell_part_handlers] and [shell_command] *)

(** Insertion into a list that is sorted and free of duplicates. *)
Fixpoint insert_sorted (x : str) (l : list str) : list str :=
  match l with
  | [] => [x]
  | y :: l' =>
      match str_compare x y with
      | Lt => x :: l
      | Eq => l
      | Gt => y :: insert_sorted x l'
      end
  end.

Definition sorted_set (l : list str) : list str := foldr insert_sorted [] l.

(** [dir(self)]: the names of the instance and of its class, each
    once, sorted.  (Without the [__x__] names.) *)
Definition dir (self : Kaniko) : list str :=
  sorted_set (map fst (map_to_list (__dict__ self))
              ++ lit "_configure_attribute_names" :: map fst class_dict).

Definition _shell_part_handlers (self : Kaniko) : list str :=
  List.filter (fun method => startswith (lit "_get_shell_part_") method) (dir self).

(** [getattr(self, handler)(command)].  An instance attribute of that
    name would be found before the method; calling it is outside this
    development. *)
Definition call_shell_part (self : Kaniko) (handler_name : str)
  (command : list str) : M (list str) :=
  match __dict__ self !! handler_name with
  | Some _ => Unmodelled
  | None =>
      match assoc handler_name shell_part_methods with
      | Some method => method self command
      | None => Raise AttributeError
      end
  end.

(** [for handler in handlers: getattr(self, handler)(command)] *)
Fixpoint run_shell_parts (self : Kaniko) (handlers : list str)
  (command : list str) : M (list str) :=
  match handlers with
  | [] => Ok command
  | handler_name :: rest =>
      command' ← call_shell_part self handler_name command;
      run_shell_parts self rest command'
  end.

Definition shell_command (self : Kaniko) : M (list str) :=
  kaniko_path ← read self (lit "kaniko_path");
  executor_path ← add_str kaniko_path (lit "/executor");
  let command := [executor_path] in
  run_shell_parts self (_shell_part_handlers self) command.

(** ** Attribute access *)

Definition is_dunder (name : str) : bool :=
  startswith (lit "__") name && endswith (lit "__") name.

(** [getattr(self, name)].  A property of the class is found first and
    evaluated; then come the instance attributes, then the other class
    attributes. *)
Definition getattr (self : Kaniko) (name : str) : M value :=
  if is_dunder name then Unmodelled
  else
    match class_lookup name with
    | Some Property =>
        if decide (name = lit "shell_command") then
          command ← shell_command self;
          Ok (VList (map VStr command))
        else Ok (VList (map VStr (_shell_part_handlers self)))
    | found =>
        match __dict__ self !! name with
        | Some v => Ok v
        | None =>
            if decide (name = lit "_configure_attribute_names") then
              Ok (VTuple (map VStr (_configure_attribute_names self)))
            else
              match found with
              | Some (Data default) => Ok default
              | Some _ => Ok VFunction
              | None => Raise AttributeError
              end
        end
    end.

(** [getattr(self, name, default)]: only [AttributeError] is caught. *)
Definition getattr_default (self : Kaniko) (name : str) (default : value)
  : M value :=
  match getattr self name with
  | Raise AttributeError => Ok default
  | result => result
  end.

(** [hasattr(self, name)] *)
Definition hasattr (self : Kaniko) (name : str) : M bool :=
  match getattr self name with
  | Ok _ => Ok true
  | Raise AttributeError => Ok false
  | Raise e => Raise e
  | Unmodelled => Unmodelled
  end.

(** [setattr(self, name, v)].  The two properties have no setter. *)
Definition setattr (self : Kaniko) (name : str) (v : value) : M Kaniko :=
  if is_dunder name || bool_decide (name = lit "_configure_attribute_names")
  then Unmodelled
  else
    match class_lookup name with
    | Some Property => Raise AttributeError
    | _ =>
        Ok {| _configure_attribute_names := _configure_attribute_names self;
              __dict__ := <[name := v]> (__dict__ self) |}
    end.

Definition _is_callable (self : Kaniko) (attribute_name : str) : M bool :=
  attribute ← getattr_default self attribute_name VNone;
  Ok (callable attribute).

(** ** State

    [configure] and [build] change the object (and the disk) and may
    raise on the way: a computation takes the state and gives back a
    result together with the state it leaves. *)

Definition Eff (S A : Type) : Type := S -> M A * S.

#[global] Instance Eff_ret {S} : MRet (Eff S) := fun A a s => (Ok a, s).
#[global] Instance Eff_bind {S} : MBind (Eff S) := fun A B f m s =>
  match m s with
  | (Ok a, s') => f a s'
  | (Raise e, s') => (Raise e, s')
  | (Unmodelled, s') => (Unmodelled, s')
  end.

Definition get {S} : Eff S S := fun s => (Ok s, s).
Definition put {S} (s : S) : Eff S unit := fun _ => (Ok tt, s).
Definition lift {S A} (m : M A) : Eff S A := fun s => (m, s).
Definition raise {S A} (e : exn) : Eff S A := fun s => (Raise e, s).

(** ** [configure]

    [kwargs] is a Python dict: its items in insertion order. *)

Fixpoint configure (kwargs : list (str * value)) : Eff Kaniko unit :=
  match kwargs with
  | [] => mret tt
  | (key, value) :: rest =>
      self ← get;
      skip ← (if bool_decide (key ∉ _configure_attribute_names self)
              then mret true
              else lift (_is_callable self key));
      if skip : bool then configure rest
      else
        self' ← lift (setattr self key value);
        put self';;
        configure rest
  end.

(** ** The registry configuration: [_make_config]

    Bytes are [Byte.byte]; [encode('ascii')], [b64encode] and
    [decode('ascii')] are those of the Python library. *)

Fixpoint encode_ascii (s : str) : M (list byte) :=
  match s with
  | [] => Ok []
  | c :: s' =>
      if c <? 128 then
        match Byte.of_N c with
        | Some b => bs ← encode_ascii s'; Ok (b :: bs)
        | None => Raise UnicodeEncodeError
        end
      else Raise UnicodeEncodeError
  end.

Definition decode_ascii (bs : list byte) : M str :=
  if forallb (fun b => Byte.to_N b <? 128) bs
  then Ok (map Byte.to_N bs)
  else Raise UnicodeDecodeError.

Definition b64_alphabet : list byte :=
  list_byte_of_string
    "ABCDEFGHIJKLMNOPQRSTUVWXYZabcdefghijklmnopqrstuvwxyz0123456789+/".

Definition b64_digit (n : N) : byte := nth (N.to_nat n) b64_alphabet "="%byte.

Fixpoint b64encode (bs : list byte) : list byte :=
  match bs with
  | [] => []
  | b0 :: rest0 =>
      let n0 := Byte.to_N b0 in
      match rest0 with
      | [] =>
          [ b64_digit (N.shiftr n0 2);
            b64_digit (N.shiftl (N.land n0 3) 4);
            "="%byte; "="%byte ]
      | b1 :: rest1 =>
          let n1 := Byte.to_N b1 in
          match rest1 with
          | [] =>
              [ b64_digit (N.shiftr n0 2);
                b64_digit (N.lor (N.shiftl (N.land n0 3) 4) (N.shiftr n1 4));
                b64_digit (N.shiftl (N.land n1 15) 2);
                "="%byte ]
          | b2 :: rest2 =>
              let n2 := Byte.to_N b2 in
              b64_digit (N.shiftr n0 2)
              :: b64_digit (N.lor (N.shiftl (N.land n0 3) 4) (N.shiftr n1 4))
              :: b64_digit (N.lor (N.shiftl (N.land n1 15) 2) (N.shiftr n2 6))
              :: b64_digit (N.land n2 63)
              :: b64encode rest2
          end
      end
  end.

(** What [_make_config] builds: dicts whose leaves are strings.  A key
    is whatever value the attribute holds. *)
#[warnings="-register-all"]
Inductive pyobj :=
| PStr (s : str)
| PDict (items : list (value * pyobj)).

(** Whether [hash(x)] succeeds, which a dict requires of its keys. *)
Fixpoint hashable (x : value) : bool :=
  match x with
  | VList _ => false
  | VTuple items => forallb hashable items
  | _ => true
  end.

Definition _make_config (self : Kaniko) : M pyobj :=
  docker_registry_uri ← read self (lit "docker_registry_uri");
  registry_username ← read self (lit "registry_username");
  registry_password ← read self (lit "registry_password");
  username ← format_value registry_username;
  password ← format_value registry_password;
  credentials ← encode_ascii (username ++ lit ":" ++ password);
  auth ← decode_ascii (b64encode credentials);
  if hashable docker_registry_uri then
    Ok (PDict [ (VStr (lit "auths"),
                 PDict [ (docker_registry_uri,
                          PDict [ (VStr (lit "auth"), PStr auth) ]) ]) ])
  else Raise TypeError.

(** ** [json.dumps] with its default arguments *)

Definition hex_digit (n : N) : N :=
  if n <? 10 then 48 + n else 97 + (n - 10).

(** ['{0:04x}'.format(n)] for [n < 0x10000] *)
Definition hex4 (n : N) : str :=
  [ hex_digit (N.land (N.shiftr n 12) 15); hex_digit (N.land (N.shiftr n 8) 15);
    hex_digit (N.land (N.shiftr n 4) 15); hex_digit (N.land n 15) ].

(** The replacement of one code point inside a JSON string
    ([ensure_ascii] is on). *)
Definition json_escape (c : N) : str :=
  if c =? 0x22 then [0x5C; 0x22]
  else if c =? 0x5C then lit "\\"
  else if c =? 0x08 then lit "\b"
  else if c =? 0x0C then lit "\f"
  else if c =? 0x0A then lit "\n"
  else if c =? 0x0D then lit "\r"
  else if c =? 0x09 then lit "\t"
  else if (0x20 <=? c) && (c <=? 0x7E) then [c]
  else if c <? 0x10000 then lit "\u" ++ hex4 c
  else
    let n := c - 0x10000 in
    let s1 := N.lor 0xD800 (N.land (N.shiftr n 10) 0x3FF) in
    let s2 := N.lor 0xDC00 (N.land n 0x3FF) in
    lit "\u" ++ hex4 s1 ++ lit "\u" ++ hex4 s2.

Definition json_string (s : str) : str :=
  [0x22] ++ concat (map json_escape s) ++ [0x22].

(** The text of a dict key: a string, [None], a boolean or an integer
    is written, a tuple, an enumeration member or a function is
    refused (a list never gets to be a key). *)
Definition json_key (k : value) : M str :=
  match k with
  | VStr s => Ok s
  | VNone => Ok (lit "null")
  | VBool true => Ok (lit "true")
  | VBool false => Ok (lit "false")
  | VInt n => Ok (str_of_int n)
  | VList _ | VTuple _ | VSnapshotMode _ | VVerbosity _ | VFunction =>
      Raise TypeError
  end.

Fixpoint json_dumps (o : pyobj) : M str :=
  match o with
  | PStr s => Ok (json_string s)
  | PDict items =>
      members ←
        (fix dump_items (items : list (value * pyobj)) : M (list str) :=
           match items with
           | [] => Ok []
           | (k, v) :: rest =>
               key ← json_key k;
               text ← json_dumps v;
               others ← dump_items rest;
               Ok ((json_string key ++ lit ": " ++ text) :: others)
           end) items;
      Ok (lit "{" ++ str_join (lit ", ") members ++ lit "}")
  end.

(** ** The disk and [_write_config]

    The disk is known through what the program does to it: the paths
    for which [os.makedirs] has returned (the ancestors it makes on
    the way, also when it fails further in, are not recorded) and the
    text of the files the program has opened for writing, by path.  What the operating
    system refuses (a directory that exists as a file, a missing
    permission, a full disk) is its own affair: [refuses] tells it for
    each request, and [written] how many characters of a refused
    write still reach the file. *)

Inductive request :=
| Makedirs (path : str)
| OpenForWriting (path : str)
| WriteAndClose (path text : str).

Record FileSystem := {
  directories : gset str;
  files : gmap str str;
  refuses : request -> bool;
  written : nat
}.

Record World := {
  this : Kaniko;
  disk : FileSystem
}.

(** [os.path.join(a, b)] on POSIX, for strings. *)
Definition posix_join (a b : str) : str :=
  if startswith (lit "/") b then b
  else if match a with [] => true | _ :: _ => endswith (lit "/") a end
       then a ++ b
       else a ++ lit "/" ++ b.

(** [os.path.join(a, b)] where [a] is any value: of the values of
    this development only a string is a path. *)
Definition os_path_join (a : value) (b : str) : M str :=
  match a with
  | VStr s => Ok (posix_join s b)
  | VNone | VBool _ | VInt _ | VList _ | VTuple _
  | VSnapshotMode _ | VVerbosity _ | VFunction => Raise TypeError
  end.

(** A code point the file system encoding (UTF-8 with
    [surrogateescape]) cannot encode: a surrogate outside U+DC80 to
    U+DCFF. *)
Definition unencodable (c : N) : bool :=
  (0xD800 <=? c) && (c <=? 0xDFFF) && negb ((0xDC80 <=? c) && (c <=? 0xDCFF)).

(** What turning a path into bytes raises, if anything: the encoding
    comes first, the test for a NUL character second. *)
Definition fsencode_error (path : str) : option exn :=
  if existsb unencodable path then Some UnicodeEncodeError
  else if existsb (fun c => c =? 0) path then Some ValueError
  else None.

(** [os.makedirs] creates the missing directories from the outermost
    one inwards, so it fails on the first name of the path that cannot
    be turned into bytes. *)
Definition makedirs_encode_error (path : str) : option exn :=
  match List.find (fun name => match fsencode_error name with
                               | Some _ => true
                               | None => false
                               end) (split 0x2F path) with
  | Some name => fsencode_error name
  | None => None
  end.

(** [os.makedirs(path, exist_ok=True)].  A refusal of the operating
    system concerns a directory reached before a name that cannot be
    encoded. *)
Definition makedirs (path : str) : Eff World unit := fun w =>
  if refuses (disk w) (Makedirs path) then (Raise OSError, w)
  else
    match makedirs_encode_error path with
    | Some e => (Raise e, w)
    | None =>
        (Ok tt,
         {| this := this w;
            disk := {| directories := {[path]} ∪ directories (disk w);
                       files := files (disk w);
                       refuses := refuses (disk w);
                       written := written (disk w) |} |})
    end.

(** The file at [path] holds [text]. *)
Definition with_file (path text : str) (w : World) : World :=
  {| this := this w;
     disk := {| directories := directories (disk w);
                files := <[path := text]> (files (disk w));
                refuses := refuses (disk w);
                written := written (disk w) |} |}.

(** [open(path, 'w')]: the file is created, or emptied. *)
Definition open_for_writing (path : str) : Eff World unit := fun w =>
  match fsencode_error path with
  | Some e => (Raise e, w)
  | None =>
      if refuses (disk w) (OpenForWriting path) then (Raise OSError, w)
      else (Ok tt, with_file path [] w)
  end.

(** [config.write(text)] and the closing of the file at the end of the
    [with] block. *)
Definition write_file (path text : str) : Eff World unit := fun w =>
  if refuses (disk w) (WriteAndClose path text)
  then (Raise OSError, with_file path (take (written (disk w)) text) w)
  else (Ok tt, with_file path text w).

Definition _write_config : Eff World unit :=
  w ← get;
  let self := this w in
  kaniko_path ← lift (read self (lit "kaniko_path"));
  config_folder_path ← lift (os_path_join kaniko_path (lit ".docker"));
  makedirs config_folder_path;;
  let path := posix_join config_folder_path (lit "config.json") in
  open_for_writing path;;
  config ← lift (_make_config self);
  text ← lift (json_dumps config);
  write_file path text.

(** ** [_parse_logs] *)

Definition continuation (b : N) : bool := (0x80 <=? b) && (b <=? 0xBF).

(** [bytes.decode('utf-8')]: strict, so overlong forms, surrogates and
    code points above U+10FFFF are refused. *)
Fixpoint decode_utf8 (bs : list byte) : M str :=
  match bs with
  | [] => Ok []
  | x0 :: bs0 =>
      let b0 := Byte.to_N x0 in
      if b0 <? 0x80 then
        text ← decode_utf8 bs0; Ok (b0 :: text)
      else
        match bs0 with
        | [] => Raise UnicodeDecodeError
        | x1 :: bs1 =>
            let b1 := Byte.to_N x1 in
            if (0xC2 <=? b0) && (b0 <=? 0xDF) then
              if continuation b1 then
                text ← decode_utf8 bs1;
                Ok (N.lor (N.shiftl (N.land b0 0x1F) 6) (N.land b1 0x3F) :: text)
              else Raise UnicodeDecodeError
            else
              match bs1 with
              | [] => Raise UnicodeDecodeError
              | x2 :: bs2 =>
                  let b2 := Byte.to_N x2 in
                  if (0xE0 <=? b0) && (b0 <=? 0xEF) then
                    if continuation b1 && continuation b2
                       && negb ((b0 =? 0xE0) && (b1 <? 0xA0))
                       && negb ((b0 =? 0xED) && (0xA0 <=? b1))
                    then
                      text ← decode_utf8 bs2;
                      Ok (N.lor (N.shiftl (N.land b0 0x0F) 12)
                            (N.lor (N.shiftl (N.land b1 0x3F) 6) (N.land b2 0x3F))
                          :: text)
                    else Raise UnicodeDecodeError
                  else
                    match bs2 with
                    | [] => Raise UnicodeDecodeError
                    | x3 :: bs3 =>
                        let b3 := Byte.to_N x3 in
                        if (0xF0 <=? b0) && (b0 <=? 0xF4)
                           && continuation b1 && continuation b2 && continuation b3
                           && negb ((b0 =? 0xF0) && (b1 <? 0x90))
                           && negb ((b0 =? 0xF4) && (0x90 <=? b1))
                        then
                          text ← decode_utf8 bs3;
                          Ok (N.lor (N.shiftl (N.land b0 0x07) 18)
                                (N.lor (N.shiftl (N.land b1 0x3F) 12)
                                   (N.lor (N.shiftl (N.land b2 0x3F) 6)
                                      (N.land b3 0x3F)))
                              :: text)
                        else Raise UnicodeDecodeError
                    end
              end
        end
  end.

Definition _parse_logs (logs : list byte) : M (list str) :=
  text ← decode_utf8 logs;
  let rows := split 0x0A (strip text) in
  Ok (map strip rows).

(** ** [build]

    The executable is outside Python: [Popen] stands for starting it
    with the given arguments and waiting for it, and tells the return
    code and everything it wrote to its output, or [None] when it
    could not be started. *)

Record Process := {
  returncode : Z;
  stdout : list byte
}.

Definition Popen := list str -> FileSystem -> option Process.

(** A computation on the object, run inside the world. *)
Definition on_this {A} (m : Eff Kaniko A) : Eff World A := fun w =>
  let (result, self) := m (this w) in
  (result, {| this := self; disk := disk w |}).

Definition build (popen : Popen) (kwargs : list (str * value))
  : Eff World (list str) :=
  on_this (configure kwargs);;
  _write_config;;
  w ← get;
  command ← lift (shell_command (this w));
  match popen command (disk w) with
  | None => raise OSError
  | Some res =>
      let exit_code := returncode res in
      body ← lift (_parse_logs (stdout res));
      if negb (exit_code =? 0)%Z then
        raise (BuildFailed (KanikoBuildException.__init__ exit_code body))
      else mret body
  end.

(** * Vocabulary of the properties *)

(** A list in strictly increasing order. *)
Fixpoint increasing (l : list str) : Prop :=
  match l with
  | [] => True
  | y :: l' => Forall (fun z => str_compare y z = Lt) l' /\ increasing l'
  end.

(** The objects the class produces: the tuple of names is the one
    [__init__] computes, and every instance attribute was created by
    [configure], hence under one of these names. *)
Definition well_formed (self : Kaniko) : Prop :=
  _configure_attribute_names self = _configure_attribute_names __init__ /\
  forall name, is_Some (__dict__ self !! name) ->
               name ∈ _configure_attribute_names self.

(** The handler methods in the order [dir] lists them. *)
Definition handler_names : list str :=
  map lit [ "_get_shell_part_build_args"; "_get_shell_part_cache";
    "_get_shell_part_cache_dir"; "_get_shell_part_cache_repo";
    "_get_shell_part_cleanup"; "_get_shell_part_context";
    "_get_shell_part_destination"; "_get_shell_part_digest_file";
    "_get_shell_part_dockerfile"; "_get_shell_part_force";
    "_get_shell_part_insecure"; "_get_shell_part_insecure_pull";
    "_get_shell_part_insecure_registry"; "_get_shell_part_no_push";
    "_get_shell_part_oci_layout_path"; "_get_shell_part_reproducible";
    "_get_shell_part_single_snapshot"; "_get_shell_part_skip_tls_verify";
    "_get_shell_part_skip_tls_verify_pull";
    "_get_shell_part_skip_tls_verify_registry";
    "_get_shell_part_snapshot_mode"; "_get_shell_part_tar_path";
    "_get_shell_part_target"; "_get_shell_part_verbosity" ]%string.

(** [self.name = v], as [configure] performs it on a setting. *)
Definition with_attribute (self : Kaniko) (name : str) (v : value) : Kaniko :=
  {| _configure_attribute_names := _configure_attribute_names self;
     __dict__ := <[name := v]> (__dict__ self) |}.

(** What a handler does with the value of its setting, and the
    property that it only appends to the command. *)
Definition rule := value -> list str -> M (list str).

Definition appends (r : rule) : Prop :=
  forall x command, r x command = app command <$> r x [].

(** The setting a handler reads is named after it. *)
Definition setting_of (handler_name : str) : str :=
  skipn (length (lit "_get_shell_part_")) handler_name.

(** The configuration of the test suite ([KanikoTest.get_config]). *)
Definition test_config : list (str * value) :=
  [ (lit "kaniko_path", VStr (lit "/kaniko/path"));
    (lit "build_args", VList [VStr (lit "1"); VStr (lit "2"); VStr (lit "3")]);
    (lit "cache", VBool true);
    (lit "force", VBool true);
    (lit "nonexistent_attribute", VBool true) ].

(** The bytes of an ASCII literal, and the line feed. *)
Definition bytes (s : string) : list byte := list_byte_of_string s.
Definition LF : list byte := [x0a].

(** The log of the test suite ([KanikoTest.test_parse_logs]): a line
    feed, [some], a line feed, [ little], a line feed, [ strings ], a
    line feed. *)
Definition test_logs : list byte :=
  LF ++ bytes "some" ++ LF ++ bytes " little" ++ LF ++ bytes " strings " ++ LF.

(** A fresh object on an empty disk whose operating system refuses
    nothing. *)
Definition fresh_world : World :=
  {| this := __init__;
     disk := {| directories := ∅; files := ∅;
                refuses := fun _ => false; written := 0 |} |}.

(** An executable that exits with [code] after writing [output]. *)
Definition exits_with (code : Z) (output : list byte) : Popen :=
  fun _ _ => Some {| returncode := code; stdout := output |}.

(** A string between double quotes. *)
Definition quoted (s : str) : str := [0x22] ++ s ++ [0x22].

(** The registry document: an object with the member [auths], holding
    an object with the member [key], holding an object with the member
    [auth], with the separators [json.dumps] writes. *)
Definition registry_document (key auth : str) : str :=
  lit "{" ++ quoted (lit "auths") ++ lit ": {" ++ json_string key ++ lit ": {"
  ++ quoted (lit "auth") ++ lit ": " ++ quoted auth ++ lit "}}}".

(** [b64encode(s.encode('ascii')).decode('ascii')] for an ASCII literal. *)
Definition base64_text (s : string) : str := map Byte.to_N (b64encode (bytes s)).

(** The handler of a setting. *)
Definition handler_of (setting : str) : str := lit "_get_shell_part_" ++ setting.

(** The settings by kind, each with the text its tokens start with. *)
Definition list_settings : list (str * str) :=
  [ (lit "build_args", lit "--build-arg=");
    (lit "insecure_registry", lit "--insecure-registry=");
    (lit "skip_tls_verify_registry", lit "--skip-tls-verify-registry=") ].


Definition enum_settings : list (str * str) :=
  [ (lit "snapshot_mode", lit "--snapshotMode=");
    (lit "verbosity", lit "--verbosity=") ].

(** The characters of base64 are ASCII, and JSON writes them as they are. *)
Definition plain_byte (b : byte) : Prop :=
  (Byte.to_N b <? 128) = true /\ json_escape (Byte.to_N b) = [Byte.to_N b].

(** A name under which [getattr] and [setattr] meet no property and
    nothing outside this development: the attribute is looked up in
    the instance, then in the class. *)
Definition plain_name (name : str) : bool :=
  negb (is_dunder name)
  && negb (bool_decide (name = lit "_configure_attribute_names"))
  && match class_lookup name with
     | Some Property => false
     | _ => true
     end.

(** What [getattr] finds under a plain name. *)
Definition plain_attribute (self : Kaniko) (name : str) : M value :=
  match __dict__ self !! name with
  | Some v => Ok v
  | None =>
      match class_lookup name with
      | Some (Data default) => Ok default
      | Some _ => Ok VFunction
      | None => Raise AttributeError
      end
  end.

(** Whether [configure] stores the value it is given for [key]: the
    key is one of [_configure_attribute_names] and the attribute it
    names is not callable. *)
Definition stores (self : Kaniko) (key : str) : bool :=
  bool_decide (key ∈ _configure_attribute_names self)
  && match _is_callable self key with
     | Ok false => true
     | _ => false
     end.


(** The settings that only [_make_config] reads. *)
Definition registry_settings : list str :=
  [ lit "docker_registry_uri"; lit "registry_username"; lit "registry_password" ].

(** A text that does not start with whitespace. *)
Definition head_not_space (s : str) : Prop :=
  match s with
  | [] => True
  | c :: _ => isspace c = false
  end.

(** A code point that a path may contain. *)
Definition encodable_char (c : N) : bool :=
  negb (unencodable c) && negb (c =? 0).

(** When the command without the setting is the executor path alone,
    the tokens of the setting come after it: the other split, with
    the tokens before the path, contradicts the computed command. *)
Ltac after_executor Hsplit Hcommand :=
  match type of Hsplit with
  | _ = ?pre ++ ?post =>
      destruct pre as [| ? pre]; simpl in Hsplit;
      [ subst post; vm_compute in Hcommand; discriminate Hcommand
      | injection Hsplit as <- Hsplit; symmetry in Hsplit;
        apply app_eq_nil in Hsplit as [-> ->]; exact Hcommand ]
  end.

(** * Properties *)

(** ** The error monads *)

Lemma M_bind_Ok {A B} (m : M A) (f : A -> M B) (b : B) :
  m ≫= f = Ok b -> exists a, m = Ok a /\ f a = Ok b.
Proof. destruct m as [a | e |]; simpl; intros H; try discriminate. eauto. Qed.

Lemma M_fmap_Ok {A B} (m : M A) (f : A -> B) (b : B) :
  f <$> m = Ok b -> exists a, m = Ok a /\ b = f a.
Proof.
  destruct m as [a | e |]; simpl; intros H; try discriminate.
  injection H as <-. eauto.
Qed.

(** ** The order of names *)

Lemma str_compare_refl (a : str) : str_compare a a = Eq.
Proof. induction a as [| x a IH]; simpl; [reflexivity |]. now rewrite N.compare_refl. Qed.

Lemma str_compare_eq (a b : str) : str_compare a b = Eq -> a = b.
Proof.
  revert b. induction a as [| x a IH]; intros [| y b]; simpl; try discriminate; trivial.
  destruct (x ?= y) eqn:Hxy; try discriminate.
  apply N.compare_eq in Hxy. intros H. f_equal; auto.
Qed.

Lemma str_compare_flip (a b : str) : str_compare a b = Gt -> str_compare b a = Lt.
Proof.
  revert b. induction a as [| x a IH]; intros [| y b]; simpl; try discriminate; trivial.
  rewrite (N.compare_antisym x y). destruct (x ?= y); simpl; auto; discriminate.
Qed.

Lemma str_compare_trans (a b c : str) :
  str_compare a b = Lt -> str_compare b c = Lt -> str_compare a c = Lt.
Proof.
  revert b c. induction a as [| x a IH]; intros [| y b] [| z c]; simpl;
    try discriminate; trivial.
  destruct (x ?= y) eqn:Hxy; try discriminate.
  - apply N.compare_eq in Hxy. subst y.
    destruct (x ?= z); try discriminate; eauto.
  - intros _. destruct (y ?= z) eqn:Hyz; try discriminate.
    + apply N.compare_eq in Hyz. subst z. now rewrite Hxy.
    + intros _. rewrite N.compare_lt_iff in Hxy, Hyz.
      assert (H : (x ?= z) = Lt) by (apply N.compare_lt_iff; lia).
      now rewrite H.
Qed.

Lemma Forall_insert_sorted (P : str -> Prop) (x : str) (l : list str) :
  P x -> Forall P l -> Forall P (insert_sorted x l).
Proof.
  intros Hx Hl. induction Hl as [| y l Hy Hl IH]; simpl.
  - repeat constructor; assumption.
  - destruct (str_compare x y); repeat constructor; assumption.
Qed.

Lemma insert_sorted_increasing (x : str) (l : list str) :
  increasing l -> increasing (insert_sorted x l).
Proof.
  induction l as [| y l IH]; simpl; intros Hl.
  - split; constructor.
  - destruct Hl as [Hy Hl]. destruct (str_compare x y) eqn:Hxy; simpl.
    + split; assumption.
    + split; [| split; assumption]. constructor; [assumption |].
      eapply Forall_impl; [exact Hy |]. intros z Hz. simpl in Hz.
      eapply str_compare_trans; eassumption.
    + split; [| auto]. apply Forall_insert_sorted; [| assumption].
      now apply str_compare_flip.
Qed.

Lemma sorted_set_increasing (l : list str) : increasing (sorted_set l).
Proof.
  induction l as [| x l IH]; simpl; [exact I |].
  now apply insert_sorted_increasing.
Qed.

Lemma insert_sorted_below (x : str) (l : list str) :
  Forall (fun z => str_compare x z = Lt) l -> insert_sorted x l = x :: l.
Proof. intros [| y l' Hy _]; simpl; [reflexivity |]. now rewrite Hy. Qed.

Lemma Forall_list_filter {A} (P : A -> Prop) (p : A -> bool) (l : list A) :
  Forall P l -> Forall P (List.filter p l).
Proof.
  induction 1 as [| z l Hz Hall IH]; simpl; [constructor |].
  destruct (p z); [constructor |]; assumption.
Qed.

Lemma filter_insert_sorted (p : str -> bool) (x : str) (l : list str) :
  increasing l ->
  List.filter p (insert_sorted x l) =
  if p x then insert_sorted x (List.filter p l) else List.filter p l.
Proof.
  induction l as [| y l IH]; simpl; intros Hl.
  - destruct (p x); reflexivity.
  - destruct Hl as [Hy Hl]. specialize (IH Hl).
    destruct (str_compare x y) eqn:Hxy; simpl.
    + apply str_compare_eq in Hxy. subst y.
      destruct (p x) eqn:Hpx; [| reflexivity].
      simpl. now rewrite str_compare_refl.
    + destruct (p x) eqn:Hpx; [| reflexivity].
      symmetry. apply insert_sorted_below.
      assert (Hall : Forall (fun z => str_compare x z = Lt) (y :: l)).
      { constructor; [assumption |]. eapply Forall_impl; [exact Hy |].
        intros z Hz. simpl in Hz. eapply str_compare_trans; eassumption. }
      change (Forall (fun z => str_compare x z = Lt) (List.filter p (y :: l))).
      now apply Forall_list_filter.
    + rewrite IH. destruct (p y) eqn:Hpy, (p x) eqn:Hpx; simpl; try reflexivity.
      now rewrite Hxy.
Qed.

Lemma filter_sorted_set (p : str -> bool) (l : list str) :
  List.filter p (sorted_set l) = sorted_set (List.filter p l).
Proof.
  induction l as [| x l IH]; simpl; [reflexivity |].
  rewrite filter_insert_sorted by apply sorted_set_increasing.
  rewrite IH. destruct (p x); reflexivity.
Qed.

(** ** Well-formed objects and the list of handlers *)

Lemma well_formed_init : well_formed __init__.
Proof.
  split; [reflexivity |]. intros name [v Hv]. simpl in Hv.
  rewrite lookup_empty in Hv. discriminate.
Qed.

Lemma well_formed_with_attribute (self : Kaniko) (name : str) (v : value) :
  well_formed self -> name ∈ _configure_attribute_names self ->
  well_formed (with_attribute self name v).
Proof.
  intros [Hnames Hdict] Hname. split; [exact Hnames |].
  intros name' [v' Hv']. simpl in *.
  destruct (decide (name = name')) as [<- | Hne]; [assumption |].
  rewrite lookup_insert_ne in Hv' by assumption. apply Hdict. eauto.
Qed.

Lemma configure_names_public (name : str) :
  name ∈ _configure_attribute_names __init__ ->
  startswith (lit "_") name = false.
Proof.
  intros Hin. apply list_elem_of_In in Hin.
  assert (H : forallb (fun key => negb (startswith (lit "_") key))
                (_configure_attribute_names __init__) = true)
    by (vm_compute; reflexivity).
  rewrite forallb_forall in H. specialize (H name Hin).
  now apply negb_true_iff in H.
Qed.

Lemma startswith_app (p q s : str) :
  startswith (p ++ q) s = true -> startswith p s = true.
Proof.
  revert s. induction p as [| c p IH]; intros s; simpl; [reflexivity |].
  destruct s as [| d s]; [discriminate |].
  intros H. apply andb_true_iff in H as [-> H]. simpl. eauto.
Qed.

Lemma well_formed_no_private (self : Kaniko) (name : str) :
  well_formed self -> startswith (lit "_") name = true ->
  __dict__ self !! name = None.
Proof.
  intros [Hnames Hdict] Hname.
  destruct (__dict__ self !! name) as [v |] eqn:Hv; [| reflexivity].
  assert (Hin : name ∈ _configure_attribute_names self) by (apply Hdict; eauto).
  rewrite Hnames in Hin. apply configure_names_public in Hin. congruence.
Qed.

Lemma shell_part_handlers_well_formed (self : Kaniko) :
  well_formed self -> _shell_part_handlers self = handler_names.
Proof.
  intros Hwf. unfold _shell_part_handlers, dir.
  rewrite filter_sorted_set, List.filter_app.
  assert (Hnone : List.filter
            (fun method => startswith (lit "_get_shell_part_") method)
            (map fst (map_to_list (__dict__ self))) = []).
  { assert (Hkeys : Forall (fun item => __dict__ self !! item.1 = Some item.2)
                        (map_to_list (__dict__ self))).
    { apply Forall_forall. intros [key v] Hin. now apply elem_of_map_to_list. }
    induction Hkeys as [| [key v] items Hkey _ IH]; [reflexivity |].
    cbn [map List.filter fst snd] in *. rewrite IH.
    destruct (startswith (lit "_get_shell_part_") key) eqn:Hprefix; [| reflexivity].
    apply (startswith_app (lit "_") (lit "get_shell_part_")) in Hprefix.
    rewrite (well_formed_no_private self key Hwf Hprefix) in Hkey. discriminate. }
  rewrite Hnone. vm_compute. reflexivity.
Qed.

(** ** Handlers only append, and each reads one setting *)

Lemma append_each_appends (flag : str) (args : list value) (command : list str) :
  append_each flag args command = app command <$> append_each flag args [].
Proof.
  revert command. induction args as [| arg args IH]; intros command; simpl.
  - now rewrite app_nil_r.
  - destruct (format_value arg) as [text | e |]; simpl; try reflexivity.
    rewrite (IH (append command _)), (IH (append [] _)).
    destruct (append_each flag args []) as [tokens | e |]; simpl; try reflexivity.
    unfold append. now rewrite <- app_assoc.
Qed.

Lemma for_each_append_appends (flag : str) : appends (for_each_append flag).
Proof.
  intros x command. unfold for_each_append.
  destruct (py_iter x) as [args | e |]; simpl; try reflexivity.
  apply append_each_appends.
Qed.

Lemma if_append_flag_appends (flag : str) : appends (if_append_flag flag).
Proof.
  intros x command. unfold if_append_flag.
  destruct (truthy x); simpl; [reflexivity | now rewrite app_nil_r].
Qed.

Lemma if_append_appends (flag : str) : appends (if_append flag).
Proof.
  intros x command. unfold if_append.
  destruct (truthy x); simpl; [| now rewrite app_nil_r].
  now destruct (format_value x).
Qed.

Lemma if_append_value_appends (flag : str) : appends (if_append_value flag).
Proof.
  intros x command. unfold if_append_value.
  destruct (truthy x); simpl; [| now rewrite app_nil_r].
  destruct (dot_value x) as [member_value | e |]; simpl; try reflexivity.
  now destruct (format_value member_value).
Qed.

Lemma destination_appends :
  appends (fun destination command =>
    if truthy destination then
      if isinstance_list destination then
        for_each_append (lit "--destination=") destination command
      else
        text ← format_value destination;
        Ok (append command (lit "--destination=" ++ text))
    else Ok command).
Proof.
  intros x command. cbv beta.
  destruct (truthy x); simpl; [| now rewrite app_nil_r].
  destruct (isinstance_list x); [apply for_each_append_appends |].
  now destruct (format_value x).
Qed.

Lemma shell_part_methods_shape :
  Forall (fun entry : str * handler =>
            exists r : rule, appends r /\
              forall self command,
                entry.2 self command =
                read self (setting_of entry.1) ≫= fun x => r x command)
         shell_part_methods.
Proof.
  unfold shell_part_methods.
  repeat (constructor; [eexists; split;
    [| intros self command; reflexivity];
    first [ apply for_each_append_appends | apply if_append_flag_appends
          | apply if_append_appends | apply if_append_value_appends
          | apply destination_appends ] |]).
  constructor.
Qed.

Lemma assoc_Some_elem {A} (name : str) (l : list (str * A)) (a : A) :
  assoc name l = Some a -> (name, a) ∈ l.
Proof.
  induction l as [| [k b] l IH]; simpl; [discriminate |].
  destruct (decide (k = name)) as [-> | Hne].
  - intros [= ->]. apply elem_of_cons. now left.
  - intros H. apply elem_of_cons. right. auto.
Qed.

Lemma assoc_is_Some {A} (name : str) (l : list (str * A)) :
  name ∈ l.*1 -> is_Some (assoc name l).
Proof.
  induction l as [| [k b] l IH]; simpl; intros Hin.
  - now apply elem_of_nil in Hin.
  - destruct (decide (k = name)) as [-> | Hne]; [eauto |].
    apply elem_of_cons in Hin as [-> | Hin]; [congruence | auto].
Qed.

Lemma handler_names_private (h : str) :
  h ∈ handler_names -> startswith (lit "_") h = true.
Proof.
  assert (H : Forall (fun h => startswith (lit "_") h = true) handler_names)
    by (unfold handler_names; repeat constructor).
  rewrite Forall_forall in H. apply H.
Qed.

Lemma handler_names_NoDup : NoDup (setting_of <$> handler_names).
Proof. compute_done. Qed.

Lemma handler_names_settings (h : str) :
  h ∈ handler_names ->
  setting_of h ∈ _configure_attribute_names __init__ /\
  setting_of h <> lit "kaniko_path".
Proof.
  assert (H : Forall (fun h =>
                setting_of h ∈ _configure_attribute_names __init__ /\
                setting_of h <> lit "kaniko_path") handler_names)
    by compute_done.
  rewrite Forall_forall in H. apply H.
Qed.

Lemma handler_names_methods (h : str) :
  h ∈ handler_names -> h ∈ shell_part_methods.*1.
Proof.
  assert (H : Forall (fun h => h ∈ shell_part_methods.*1) handler_names)
    by compute_done.
  rewrite Forall_forall in H. apply H.
Qed.

(** On a well-formed object a handler name resolves to its method,
    which reads its setting and appends. *)
Lemma call_shell_part_shape (h : str) :
  h ∈ handler_names ->
  exists r : rule, appends r /\
    forall self command, well_formed self ->
      call_shell_part self h command =
      read self (setting_of h) ≫= fun x => r x command.
Proof.
  intros Hh.
  destruct (assoc_is_Some h shell_part_methods (handler_names_methods h Hh))
    as [method Hmethod].
  pose proof (assoc_Some_elem _ _ _ Hmethod) as Hin.
  pose proof shell_part_methods_shape as Hshape.
  rewrite Forall_forall in Hshape.
  destruct (Hshape _ Hin) as (r & Hr & Hcall). simpl in Hcall.
  exists r. split; [exact Hr |]. intros self command Hwf.
  unfold call_shell_part.
  rewrite (well_formed_no_private self h Hwf (handler_names_private h Hh)).
  rewrite Hmethod. apply Hcall.
Qed.

Lemma call_shell_part_appends (self : Kaniko) (h : str) (command : list str) :
  well_formed self -> h ∈ handler_names ->
  call_shell_part self h command = app command <$> call_shell_part self h [].
Proof.
  intros Hwf Hh. destruct (call_shell_part_shape h Hh) as (r & Hr & Hcall).
  rewrite !Hcall by assumption.
  destruct (read self (setting_of h)) as [x | e |]; simpl; try reflexivity.
  apply Hr.
Qed.

Lemma call_shell_part_local (self self' : Kaniko) (h : str) (command : list str) :
  well_formed self -> well_formed self' -> h ∈ handler_names ->
  read self (setting_of h) = read self' (setting_of h) ->
  call_shell_part self h command = call_shell_part self' h command.
Proof.
  intros Hwf Hwf' Hh Hread. destruct (call_shell_part_shape h Hh) as (r & Hr & Hcall).
  rewrite !Hcall by assumption. now rewrite Hread.
Qed.

Lemma run_shell_parts_app (self : Kaniko) (hs1 hs2 : list str) (command : list str) :
  run_shell_parts self (hs1 ++ hs2) command =
  run_shell_parts self hs1 command ≫= run_shell_parts self hs2.
Proof.
  revert command. induction hs1 as [| h hs1 IH]; intros command; simpl; [reflexivity |].
  destruct (call_shell_part self h command) as [command' | e |]; simpl; auto.
Qed.

Lemma run_shell_parts_appends (self : Kaniko) (hs : list str) (command : list str) :
  well_formed self -> Forall (fun h => h ∈ handler_names) hs ->
  run_shell_parts self hs command = app command <$> run_shell_parts self hs [].
Proof.
  intros Hwf Hhs. revert command.
  induction Hhs as [| h hs Hh _ IH]; intros command; simpl.
  - now rewrite app_nil_r.
  - rewrite (call_shell_part_appends self h command) by assumption.
    destruct (call_shell_part self h []) as [part | e |]; simpl; try reflexivity.
    rewrite (IH (command ++ part)), (IH part).
    destruct (run_shell_parts self hs []) as [post | e |]; simpl; try reflexivity.
    now rewrite app_assoc.
Qed.

Lemma run_shell_parts_local (self self' : Kaniko) (hs : list str) (command : list str) :
  well_formed self -> well_formed self' ->
  Forall (fun h => h ∈ handler_names /\
                   read self (setting_of h) = read self' (setting_of h)) hs ->
  run_shell_parts self hs command = run_shell_parts self' hs command.
Proof.
  intros Hwf Hwf' Hhs. revert command.
  induction Hhs as [| h hs [Hh Hread] _ IH]; intros command; simpl; [reflexivity |].
  rewrite (call_shell_part_local self self' h command) by assumption.
  destruct (call_shell_part self' h command); simpl; auto.
Qed.

Lemma read_with_attribute_ne (self : Kaniko) (name name' : str) (v : value) :
  name <> name' -> read (with_attribute self name v) name' = read self name'.
Proof.
  intros Hne. unfold read, with_attribute. simpl.
  now rewrite lookup_insert_ne.
Qed.

Lemma read_with_attribute_eq (self : Kaniko) (name : str) (v : value) :
  read (with_attribute self name v) name = Ok v.
Proof. unfold read, with_attribute. simpl. now rewrite lookup_insert_eq. Qed.

(** ** The part of the command that belongs to one setting

    On a well-formed object the command is what came before, then the
    tokens the handler of the setting appends, then what comes after;
    and giving the setting another value changes those tokens only. *)

Lemma shell_command_frame (self : Kaniko) (h : str) (command : list str) :
  well_formed self -> h ∈ handler_names ->
  shell_command self = Ok command ->
  exists pre post part,
    call_shell_part self h [] = Ok part /\
    command = pre ++ part ++ post /\
    forall v part',
      call_shell_part (with_attribute self (setting_of h) v) h [] = Ok part' ->
      shell_command (with_attribute self (setting_of h) v)
      = Ok (pre ++ part' ++ post).
Proof.
  intros Hwf Hh Hcommand.
  destruct (handler_names_settings h Hh) as [Hsetting Hpath].
  assert (Hwf' : forall v, well_formed (with_attribute self (setting_of h) v)).
  { intros v. apply well_formed_with_attribute; [assumption |].
    destruct Hwf as [-> _]. assumption. }
  destruct (list_elem_of_split _ _ Hh) as (before & after & Hsplit).
  pose proof handler_names_NoDup as Hnodup.
  rewrite Hsplit, fmap_app, fmap_cons in Hnodup.
  apply NoDup_app in Hnodup as (_ & Hbefore & Hafter).
  apply NoDup_cons in Hafter as [Hafter _].
  assert (Hall : Forall (fun h' => h' ∈ handler_names) (before ++ h :: after))
    by (rewrite <- Hsplit; apply Forall_forall; auto).
  apply Forall_app in Hall as [Hall_before Hall_after].
  apply Forall_cons in Hall_after as [_ Hall_after].
  assert (Hother : forall v hs,
             Forall (fun h' => h' ∈ handler_names) hs ->
             setting_of h ∉ setting_of <$> hs ->
             Forall (fun h' => h' ∈ handler_names /\
                       read self (setting_of h')
                       = read (with_attribute self (setting_of h) v) (setting_of h'))
                    hs).
  { intros v hs Hhs Hnot. apply Forall_forall. intros h' Hh'.
    rewrite Forall_forall in Hhs. split; [auto |].
    rewrite read_with_attribute_ne; [reflexivity |].
    intros Heq. apply Hnot. rewrite Heq. now apply list_elem_of_fmap_2. }
  unfold shell_command in Hcommand.
  rewrite (shell_part_handlers_well_formed self Hwf), Hsplit in Hcommand.
  destruct (read self (lit "kaniko_path")) as [kaniko_path | e |] eqn:Hread;
    simpl in Hcommand; try discriminate.
  destruct (add_str kaniko_path (lit "/executor")) as [executor_path | e |] eqn:Hadd;
    simpl in Hcommand; try discriminate.
  rewrite run_shell_parts_app in Hcommand.
  apply M_bind_Ok in Hcommand as (command1 & Hrun1 & Hcommand).
  simpl in Hcommand.
  apply M_bind_Ok in Hcommand as (command2 & Hcall & Hrun2).
  rewrite call_shell_part_appends in Hcall by assumption.
  apply M_fmap_Ok in Hcall as (part & Hpart & ->).
  rewrite run_shell_parts_appends in Hrun2 by assumption.
  apply M_fmap_Ok in Hrun2 as (post & Hpost & ->).
  exists command1, post, part. split; [assumption |].
  split; [now rewrite app_assoc |].
  intros v part' Hpart'. unfold shell_command.
  rewrite (shell_part_handlers_well_formed _ (Hwf' v)), Hsplit.
  rewrite read_with_attribute_ne by congruence.
  rewrite Hread. simpl. rewrite Hadd. simpl.
  rewrite run_shell_parts_app.
  rewrite <- (run_shell_parts_local self _ before); auto.
  - rewrite Hrun1. simpl.
    rewrite call_shell_part_appends by auto. rewrite Hpart'. simpl.
    rewrite run_shell_parts_appends by auto.
    rewrite <- (run_shell_parts_local self _ after); auto.
    rewrite Hpost. simpl. now rewrite app_assoc.
  - apply Hother; [assumption |]. intros Hin.
    apply (Hbefore _ Hin). apply elem_of_cons. now left.
Qed.

(** ** The test configuration *)

(** C1: a fresh object configured with the test configuration has
    exactly the command [/kaniko/path/executor --build-arg=1
    --build-arg=2 --build-arg=3 --cache --force], in this order;
    [configure] raises nothing on the unknown key and the object has
    no attribute of that name afterwards. *)
Theorem shell_command_test_config :
  let (result, kaniko) := configure test_config __init__ in
  result = Ok tt /\
  shell_command kaniko =
    Ok [ lit "/kaniko/path/executor"; lit "--build-arg=1"; lit "--build-arg=2";
         lit "--build-arg=3"; lit "--cache"; lit "--force" ] /\
  hasattr kaniko (lit "nonexistent_attribute") = Ok false /\
  __dict__ kaniko !! lit "nonexistent_attribute" = None.
Proof. vm_compute. repeat split. Qed.

(** ** [_parse_logs] *)

(** C9: on the log of the test suite [_parse_logs] returns exactly
    [some], [little], [strings]. *)
Theorem parse_logs_test_logs :
  _parse_logs test_logs = Ok [lit "some"; lit "little"; lit "strings"].
Proof. vm_compute. reflexivity. Qed.

Lemma lstrip_all_space (s : str) : forallb isspace s = true -> lstrip s = [].
Proof.
  induction s as [| c s IH]; simpl; [reflexivity |].
  intros H. apply andb_true_iff in H as [-> H]. auto.
Qed.

Lemma strip_all_space (s : str) : forallb isspace s = true -> strip s = [].
Proof. intros H. unfold strip, rstrip. now rewrite (lstrip_all_space s H). Qed.

Lemma split_app_sep (sep : N) (r s : str) :
  sep ∉ r -> split sep (r ++ sep :: s) = r :: split sep s.
Proof.
  induction r as [| c r IH]; simpl; intros Hr.
  - now rewrite N.eqb_refl.
  - apply not_elem_of_cons in Hr as [Hc Hr].
    destruct (N.eqb_spec c sep) as [-> | _]; [congruence |].
    now rewrite IH.
Qed.

Lemma split_no_sep (sep : N) (r : str) : sep ∉ r -> split sep r = [r].
Proof.
  induction r as [| c r IH]; simpl; intros Hr; [reflexivity |].
  apply not_elem_of_cons in Hr as [Hc Hr].
  destruct (N.eqb_spec c sep) as [-> | _]; [congruence |].
  now rewrite IH.
Qed.

Lemma split_join (sep : N) (rows : list str) :
  rows <> [] -> Forall (fun r => sep ∉ r) rows ->
  split sep (str_join [sep] rows) = rows.
Proof.
  intros Hne Hrows. induction Hrows as [| r rows Hr Hrows IH]; [congruence |].
  destruct rows as [| r' rows].
  - simpl. now apply split_no_sep.
  - change (str_join [sep] (r :: r' :: rows))
      with (r ++ sep :: str_join [sep] (r' :: rows)).
    rewrite split_app_sep by assumption. f_equal. now apply IH.
Qed.

Lemma split_nonempty (sep : N) (s : str) : split sep s <> [].
Proof.
  destruct s as [| c s]; simpl; [discriminate |].
  destruct (c =? sep); [discriminate |]. now destruct (split sep s).
Qed.

Lemma parse_logs_nonempty_of_text (logs : list byte) (text : str) :
  decode_utf8 logs = Ok text ->
  exists body, _parse_logs logs = Ok body.
Proof. intros H. unfold _parse_logs. rewrite H. simpl. eauto. Qed.

(** C10, as the code has it: on every byte string that is valid UTF-8
    [_parse_logs] returns a list with at least one element; it
    returns the one-element list of the empty string when the text is
    empty or whitespace only; and it returns one entry for every line
    of the stripped text, blank lines included. *)
Theorem parse_logs_rows (logs : list byte) (text : str) :
  decode_utf8 logs = Ok text ->
  (exists row rows, _parse_logs logs = Ok (row :: rows)) /\
  (forallb isspace text = true -> _parse_logs logs = Ok [[]]) /\
  (forall rows, rows <> [] -> Forall (fun r => 0x0A ∉ r) rows ->
     strip text = str_join [0x0A] rows ->
     _parse_logs logs = Ok (map strip rows)).
Proof.
  intros Hdecode. unfold _parse_logs. rewrite Hdecode. simpl.
  split; [| split].
  - pose proof (split_nonempty 0x0A (strip text)) as Hne.
    destruct (split 0x0A (strip text)) as [| row rows]; [congruence |].
    simpl. eauto.
  - intros Hspace. now rewrite (strip_all_space text Hspace).
  - intros rows Hne Hrows ->. now rewrite split_join.
Qed.

Lemma parse_logs_rows_witness :
  decode_utf8 (bytes "a" ++ LF ++ LF ++ bytes " b") = Ok (lit "a" ++ [0x0A; 0x0A] ++ lit " b") /\
  _parse_logs (bytes "a" ++ LF ++ LF ++ bytes " b") = Ok [lit "a"; []; lit "b"].
Proof.
  assert (H : decode_utf8 (bytes "a" ++ LF ++ LF ++ bytes " b")
              = Ok (lit "a" ++ [0x0A; 0x0A] ++ lit " b"))
    by (vm_compute; reflexivity).
  split; [exact H |].
  destruct (parse_logs_rows _ _ H) as (_ & _ & Hrows).
  apply (Hrows [lit "a"; []; lit " b"]).
  - discriminate.
  - compute_done.
  - vm_compute. reflexivity.
Defined.

(** C10 as stated fails: the byte [0xFF] is not valid UTF-8, and on it
    [_parse_logs] raises [UnicodeDecodeError] instead of returning a
    list. *)
Lemma parse_logs_invalid_utf8 :
  _parse_logs [xff] = Raise UnicodeDecodeError /\
  ~ (forall logs, exists row rows, _parse_logs logs = Ok (row :: rows)).
Proof.
  split; [reflexivity |].
  intros H. destruct (H [xff]) as (row & rows & Hrows). discriminate.
Qed.

(** ** [build] *)

Lemma build_after_write (popen : Popen) (kwargs : list (str * value))
  (w w1 w2 : World) :
  on_this (configure kwargs) w = (Ok tt, w1) ->
  _write_config w1 = (Ok tt, w2) ->
  build popen kwargs w =
    match shell_command (this w2) with
    | Ok command =>
        match popen command (disk w2) with
        | None => (Raise OSError, w2)
        | Some res =>
            match _parse_logs (stdout res) with
            | Ok body =>
                if negb (returncode res =? 0)%Z then
                  (Raise (BuildFailed
                            (KanikoBuildException.__init__ (returncode res) body)), w2)
                else (Ok body, w2)
            | Raise e => (Raise e, w2)
            | Unmodelled => (Unmodelled, w2)
            end
        end
    | Raise e => (Raise e, w2)
    | Unmodelled => (Unmodelled, w2)
    end.
Proof.
  intros Hconfigure Hwrite. unfold build, mbind, Eff_bind.
  rewrite Hconfigure, Hwrite. unfold get, lift.
  destruct (shell_command (this w2)) as [command | e |]; try reflexivity.
  destruct (popen command (disk w2)) as [res |]; [| reflexivity].
  destruct (_parse_logs (stdout res)) as [body | e |]; try reflexivity.
  destruct (negb (returncode res =? 0)%Z); reflexivity.
Qed.

(** C2, as the code has it: in every run of [build] in which the
    process is started and its output is valid UTF-8, a nonzero exit
    code makes [build] raise a [KanikoBuildException] that carries
    exactly that code and the parsed lines, and exit code 0 makes it
    return the parsed lines. *)
Theorem build_outcome (popen : Popen) (kwargs : list (str * value))
  (w w1 w2 : World) (command : list str) (res : Process) (text : str) :
  on_this (configure kwargs) w = (Ok tt, w1) ->
  _write_config w1 = (Ok tt, w2) ->
  shell_command (this w2) = Ok command ->
  popen command (disk w2) = Some res ->
  decode_utf8 (stdout res) = Ok text ->
  exists body,
    _parse_logs (stdout res) = Ok body /\
    (returncode res <> 0%Z ->
       exists e, build popen kwargs w = (Raise (BuildFailed e), w2) /\
                 KanikoBuildException.exit_code e = returncode res /\
                 KanikoBuildException.body e = body) /\
    (returncode res = 0%Z -> build popen kwargs w = (Ok body, w2)).
Proof.
  intros Hconfigure Hwrite Hcommand Hpopen Hdecode.
  destruct (parse_logs_nonempty_of_text (stdout res) text Hdecode) as (body & Hbody).
  exists body. split; [exact Hbody |].
  rewrite (build_after_write popen kwargs w w1 w2 Hconfigure Hwrite).
  rewrite Hcommand, Hpopen, Hbody.
  split.
  - intros Hcode. apply Z.eqb_neq in Hcode. rewrite Hcode. simpl.
    eexists. repeat split.
  - intros Hcode. rewrite Hcode. reflexivity.
Qed.

Lemma build_outcome_witness :
  let popen := exits_with 3 (bytes "oops") in
  decode_utf8 (bytes "oops") = Ok (lit "oops") /\
  exists e w2,
    build popen test_config fresh_world = (Raise (BuildFailed e), w2) /\
    KanikoBuildException.exit_code e = 3%Z /\
    KanikoBuildException.body e = [lit "oops"].
Proof.
  intros popen.
  assert (Hdecode : decode_utf8 (bytes "oops") = Ok (lit "oops"))
    by (vm_compute; reflexivity).
  split; [exact Hdecode |].
  set (w1 := (on_this (configure test_config) fresh_world).2).
  set (w2 := (_write_config w1).2).
  destruct (build_outcome popen test_config fresh_world w1 w2
              [ lit "/kaniko/path/executor"; lit "--build-arg=1";
                lit "--build-arg=2"; lit "--build-arg=3"; lit "--cache";
                lit "--force" ]
              {| returncode := 3; stdout := bytes "oops" |} (lit "oops"))
    as (body & Hbody & Hfail & _); try (vm_compute; reflexivity).
  destruct Hfail as (e & Hbuild & Hcode & He); [discriminate |].
  exists e, w2. split; [exact Hbuild |]. split; [exact Hcode |].
  rewrite He. vm_compute in Hbody. injection Hbody as <-. vm_compute. reflexivity.
Defined.

(** C2 as stated fails: when the process writes the byte [0xFF],
    which is not valid UTF-8, [build] raises [UnicodeDecodeError],
    whether the exit code is 1 or 0. *)
Lemma build_invalid_utf8_output :
  (build (exits_with 1 [xff]) [] fresh_world).1 = Raise UnicodeDecodeError /\
  (build (exits_with 0 [xff]) [] fresh_world).1 = Raise UnicodeDecodeError.
Proof. split; vm_compute; reflexivity. Qed.

(** C3, as the code has it: in every run of [build] in which the
    process is started, writes valid UTF-8 and exits with a nonzero
    code [c], the exception [build] raises has exactly the message
    [Kaniko failed with exit code c: ] followed by the parsed lines
    joined with line feeds. *)
Theorem build_failure_message (popen : Popen) (kwargs : list (str * value))
  (w w1 w2 : World) (command : list str) (res : Process) (text : str) :
  on_this (configure kwargs) w = (Ok tt, w1) ->
  _write_config w1 = (Ok tt, w2) ->
  shell_command (this w2) = Ok command ->
  popen command (disk w2) = Some res ->
  decode_utf8 (stdout res) = Ok text ->
  returncode res <> 0%Z ->
  exists body e,
    _parse_logs (stdout res) = Ok body /\
    build popen kwargs w = (Raise (BuildFailed e), w2) /\
    KanikoBuildException.message e =
      lit "Kaniko failed with exit code " ++ str_of_int (returncode res)
      ++ lit ": " ++ str_join [0x0A] body.
Proof.
  intros Hconfigure Hwrite Hcommand Hpopen Hdecode Hcode.
  destruct (parse_logs_nonempty_of_text (stdout res) text Hdecode) as (body & Hbody).
  exists body, (KanikoBuildException.__init__ (returncode res) body).
  split; [exact Hbody |]. split; [| reflexivity].
  rewrite (build_after_write popen kwargs w w1 w2 Hconfigure Hwrite).
  rewrite Hcommand, Hpopen, Hbody.
  apply Z.eqb_neq in Hcode. now rewrite Hcode.
Qed.

Lemma build_failure_message_witness :
  exists e w2,
    build (exits_with 3 (bytes "no space" ++ LF ++ bytes "left"))
      test_config fresh_world
    = (Raise (BuildFailed e), w2) /\
    KanikoBuildException.message e =
      lit "Kaniko failed with exit code 3: no space" ++ [0x0A] ++ lit "left".
Proof.
  set (popen := exits_with 3 (bytes "no space" ++ LF ++ bytes "left")).
  set (w1 := (on_this (configure test_config) fresh_world).2).
  set (w2 := (_write_config w1).2).
  destruct (build_failure_message popen test_config fresh_world w1 w2
              [ lit "/kaniko/path/executor"; lit "--build-arg=1";
                lit "--build-arg=2"; lit "--build-arg=3"; lit "--cache";
                lit "--force" ]
              {| returncode := 3; stdout := bytes "no space" ++ LF ++ bytes "left" |}
              (lit "no space" ++ [0x0A] ++ lit "left"))
    as (body & e & Hbody & Hbuild & Hmessage);
    try (vm_compute; reflexivity); [discriminate |].
  exists e, w2. split; [exact Hbuild |].
  rewrite Hmessage. vm_compute in Hbody. injection Hbody as <-.
  vm_compute. reflexivity.
Defined.

(** C3 as stated fails: when the process exits with code 1 after
    writing the lines [a] and [b], the message of the exception that
    [build] raises is [Kaniko failed with exit code 1: a], a line
    feed, [b]: it does not start with [process failed]. *)
Lemma build_failure_message_not_process_failed :
  match (build (exits_with 1 (bytes "a" ++ LF ++ bytes "b")) [] fresh_world).1 with
  | Raise (BuildFailed e) =>
      KanikoBuildException.exit_code e = 1%Z /\
      KanikoBuildException.body e = [lit "a"; lit "b"] /\
      KanikoBuildException.message e =
        lit "Kaniko failed with exit code 1: a" ++ [0x0A] ++ lit "b" /\
      KanikoBuildException.message e <>
        lit "process failed with exit code " ++ str_of_int 1 ++ lit ": "
        ++ str_join [0x0A] [lit "a"; lit "b"]
  | _ => False
  end.
Proof. vm_compute. repeat split; discriminate. Qed.

(** ** [_write_config] *)

Lemma nth_elem_of_default {A} (k : nat) (l : list A) (d : A) : nth k l d ∈ d :: l.
Proof.
  revert k. induction l as [| x l IH]; intros [| k]; simpl;
    try (apply elem_of_cons; now left).
  - apply elem_of_cons. right. apply elem_of_cons. now left.
  - specialize (IH k). apply elem_of_cons in IH as [-> | IH].
    + apply elem_of_cons. now left.
    + apply elem_of_cons. right. apply elem_of_cons. now right.
Qed.

Lemma b64_digit_plain (n : N) : plain_byte (b64_digit n).
Proof.
  assert (H : Forall plain_byte ("="%byte :: b64_alphabet))
    by (repeat constructor).
  rewrite Forall_forall in H. apply H. apply nth_elem_of_default.
Qed.

Lemma b64encode_plain : forall bs : list byte, Forall plain_byte (b64encode bs).
Proof.
  fix IH 1. intros [| b0 [| b1 [| b2 rest]]]; simpl.
  - constructor.
  - repeat constructor; apply b64_digit_plain.
  - repeat constructor; apply b64_digit_plain.
  - repeat (constructor; [apply b64_digit_plain |]). apply IH.
Qed.

Lemma decode_ascii_b64encode (bs : list byte) :
  decode_ascii (b64encode bs) = Ok (map Byte.to_N (b64encode bs)).
Proof.
  unfold decode_ascii.
  assert (H : forallb (fun b => Byte.to_N b <? 128) (b64encode bs) = true).
  { apply forallb_forall. intros b Hb. apply list_elem_of_In in Hb.
    pose proof (b64encode_plain bs) as Hall. rewrite Forall_forall in Hall.
    now destruct (Hall b Hb). }
  now rewrite H.
Qed.

Lemma json_string_b64encode (bs : list byte) :
  json_string (map Byte.to_N (b64encode bs)) = quoted (map Byte.to_N (b64encode bs)).
Proof.
  unfold json_string, quoted. do 2 f_equal.
  induction (b64encode_plain bs) as [| b l [_ Hb] _ IH]; simpl; [reflexivity |].
  now rewrite Hb, IH.
Qed.

Lemma json_key_hashable (uri : value) (key : str) :
  json_key uri = Ok key -> hashable uri = true.
Proof. destruct uri; simpl; intros H; try discriminate; reflexivity. Qed.

Lemma make_config_document (self : Kaniko) (uri username password : value)
  (key u p : str) (credentials : list byte) :
  read self (lit "docker_registry_uri") = Ok uri ->
  json_key uri = Ok key ->
  read self (lit "registry_username") = Ok username ->
  format_value username = Ok u ->
  read self (lit "registry_password") = Ok password ->
  format_value password = Ok p ->
  encode_ascii (u ++ lit ":" ++ p) = Ok credentials ->
  _make_config self ≫= json_dumps =
  Ok (registry_document key (map Byte.to_N (b64encode credentials))).
Proof.
  intros Huri Hkey Husername Hu Hpassword Hp Hcredentials.
  unfold _make_config.
  rewrite Huri, Husername, Hpassword. cbn [mbind M_bind].
  rewrite Hu, Hp. cbn [mbind M_bind]. rewrite Hcredentials. cbn [mbind M_bind].
  rewrite decode_ascii_b64encode. cbn [mbind M_bind].
  rewrite (json_key_hashable uri key Hkey).
  cbn [json_dumps mbind M_bind json_key]. rewrite Hkey. cbn [mbind M_bind str_join].
  rewrite json_string_b64encode.
  unfold registry_document, quoted, json_string.
  f_equal. rewrite <- !app_assoc. reflexivity.
Qed.

Lemma fsencode_error_None (path : str) :
  fsencode_error path = None <-> forallb encodable_char path = true.
Proof.
  unfold fsencode_error. induction path as [| c path IH]; simpl; [tauto |].
  unfold encodable_char at 1.
  destruct (unencodable c); simpl; [split; discriminate |].
  destruct (existsb unencodable path) eqn:Hrest; simpl.
  - split; [discriminate |]. intros H. apply andb_true_iff in H as [_ H].
    apply IH in H. discriminate.
  - destruct (c =? 0); simpl; [split; discriminate | exact IH].
Qed.

Lemma split_forallb (q : N -> bool) (sep : N) (s : str) :
  forallb q s = true -> Forall (fun r => forallb q r = true) (split sep s).
Proof.
  induction s as [| c s IH]; simpl; intros H; [repeat constructor |].
  apply andb_true_iff in H as [Hc H]. specialize (IH H).
  destruct (c =? sep); [now constructor |].
  destruct (split sep s) as [| field fields].
  - repeat constructor. simpl. now rewrite Hc.
  - apply Forall_cons in IH as [Hfield Hfields].
    constructor; [| assumption]. simpl. now rewrite Hc.
Qed.

Lemma makedirs_encode_error_None (path : str) :
  fsencode_error path = None -> makedirs_encode_error path = None.
Proof.
  intros H. apply fsencode_error_None in H.
  unfold makedirs_encode_error.
  induction (split_forallb encodable_char 0x2F path H) as [| name names Hname _ IH];
    simpl; [reflexivity |].
  apply fsencode_error_None in Hname. now rewrite Hname.
Qed.

Lemma posix_join_encodable (a b : str) :
  fsencode_error a = None -> fsencode_error b = None ->
  fsencode_error (posix_join a b) = None.
Proof.
  rewrite !fsencode_error_None. intros Ha Hb. unfold posix_join.
  destruct (startswith (lit "/") b); [assumption |].
  destruct (match a with [] => true | _ :: _ => endswith (lit "/") a end);
    rewrite !forallb_app, Ha, Hb; reflexivity.
Qed.

(** The world [_write_config] leaves when it ends well. *)
Lemma write_config_Ok (w : World) (kaniko_path text : str) :
  read (this w) (lit "kaniko_path") = Ok (VStr kaniko_path) ->
  fsencode_error kaniko_path = None ->
  _make_config (this w) ≫= json_dumps = Ok text ->
  let folder := posix_join kaniko_path (lit ".docker") in
  let path := posix_join folder (lit "config.json") in
  refuses (disk w) (Makedirs folder) = false ->
  refuses (disk w) (OpenForWriting path) = false ->
  refuses (disk w) (WriteAndClose path text) = false ->
  exists w',
    _write_config w = (Ok tt, w') /\
    files (disk w') !! path = Some text.
Proof.
  intros Hpath Hencode Hconfig folder path Hmakedirs Hopen Hwrite.
  apply M_bind_Ok in Hconfig as (config & Hconfig & Htext).
  assert (Hfolder : fsencode_error folder = None)
    by (apply posix_join_encodable; [assumption | reflexivity]).
  assert (Hfile : fsencode_error path = None)
    by (apply posix_join_encodable; [assumption | reflexivity]).
  unfold _write_config, mbind, Eff_bind, get, lift, makedirs, open_for_writing,
    write_file.
  rewrite Hpath. cbn [os_path_join]. fold folder. rewrite Hmakedirs.
  rewrite (makedirs_encode_error_None folder Hfolder).
  cbn [this disk refuses]. fold path. rewrite Hfile, Hopen.
  cbn [with_file this disk refuses]. rewrite Hconfig, Htext, Hwrite.
  eexists. split; [reflexivity |]. cbn [with_file disk files].
  apply lookup_insert_eq.
Qed.

Lemma build_world (popen : Popen) (kwargs : list (str * value)) (w w1 w2 : World) :
  on_this (configure kwargs) w = (Ok tt, w1) ->
  _write_config w1 = (Ok tt, w2) ->
  (build popen kwargs w).2 = w2.
Proof.
  intros Hconfigure Hwrite.
  rewrite (build_after_write popen kwargs w w1 w2 Hconfigure Hwrite).
  destruct (shell_command (this w2)) as [command | e |]; try reflexivity.
  destruct (popen command (disk w2)) as [res |]; [| reflexivity].
  destruct (_parse_logs (stdout res)) as [body | e |]; try reflexivity.
  destruct (negb (returncode res =? 0)%Z); reflexivity.
Qed.

Lemma config_path_plain (kaniko_path : str) :
  kaniko_path <> [] -> endswith (lit "/") kaniko_path = false ->
  posix_join (posix_join kaniko_path (lit ".docker")) (lit "config.json")
  = kaniko_path ++ lit "/.docker/config.json".
Proof.
  intros Hne Hslash.
  assert (Hfolder : posix_join kaniko_path (lit ".docker")
                    = kaniko_path ++ lit "/.docker").
  { unfold posix_join. change (startswith (lit "/") (lit ".docker")) with false.
    cbv iota. rewrite Hslash. destruct kaniko_path; [congruence | reflexivity]. }
  rewrite Hfolder. unfold posix_join.
  change (startswith (lit "/") (lit "config.json")) with false. cbv iota.
  assert (Hend : endswith (lit "/") (kaniko_path ++ lit "/.docker") = false).
  { unfold endswith. rewrite rev_app_distr. reflexivity. }
  rewrite Hend. destruct kaniko_path; [congruence |].
  simpl. rewrite <- app_assoc. reflexivity.
Qed.

(** C4, as the code has it: every call to [build] whose [configure]
    step raises nothing, with a string as [kaniko_path] that has no
    NUL character and no lone surrogate, an operating system that
    refuses neither the directory nor the file nor the write,
    credentials whose text is ASCII and a registry URI that JSON takes
    as a key, leaves at
    [os.path.join(kaniko_path, '.docker', 'config.json')] the document
    with the member [auths], the registry URI under it and [auth]
    holding the base64 text of [user:pass], however the build ends.
    The path is [kaniko_path] followed by [/.docker/config.json] when
    [kaniko_path] is not empty and does not end with a slash.  When no
    credentials were set the text that is encoded is [None:None], so
    [auth] is [Tm9uZTpOb25l]. *)
Theorem build_writes_registry_config (popen : Popen)
  (kwargs : list (str * value)) (w w1 : World) (kaniko_path : str)
  (uri username password : value) (key u p : str) (credentials : list byte) :
  on_this (configure kwargs) w = (Ok tt, w1) ->
  read (this w1) (lit "kaniko_path") = Ok (VStr kaniko_path) ->
  fsencode_error kaniko_path = None ->
  read (this w1) (lit "docker_registry_uri") = Ok uri ->
  json_key uri = Ok key ->
  read (this w1) (lit "registry_username") = Ok username ->
  format_value username = Ok u ->
  read (this w1) (lit "registry_password") = Ok password ->
  format_value password = Ok p ->
  encode_ascii (u ++ lit ":" ++ p) = Ok credentials ->
  let folder := posix_join kaniko_path (lit ".docker") in
  let path := posix_join folder (lit "config.json") in
  let auth := map Byte.to_N (b64encode credentials) in
  refuses (disk w1) (Makedirs folder) = false ->
  refuses (disk w1) (OpenForWriting path) = false ->
  refuses (disk w1) (WriteAndClose path (registry_document key auth)) = false ->
  files (disk (build popen kwargs w).2) !! path
    = Some (registry_document key auth) /\
  (kaniko_path <> [] -> endswith (lit "/") kaniko_path = false ->
   path = kaniko_path ++ lit "/.docker/config.json") /\
  (username = VNone -> password = VNone ->
   auth = base64_text "None:None" /\ auth = lit "Tm9uZTpOb25l").
Proof.
  intros Hconfigure Hpath Hencode Huri Hkey Husername Hu Hpassword Hp Hcredentials
    folder path auth Hmakedirs Hopen Hwrite.
  pose proof (make_config_document _ _ _ _ _ _ _ _
                Huri Hkey Husername Hu Hpassword Hp Hcredentials) as Hdocument.
  destruct (write_config_Ok w1 kaniko_path _ Hpath Hencode Hdocument
              Hmakedirs Hopen Hwrite) as (w2 & Hrun & Hfile).
  rewrite (build_world popen kwargs w w1 w2 Hconfigure Hrun).
  split; [exact Hfile |]. split.
  - apply config_path_plain.
  - intros -> ->. simpl in Hu, Hp. injection Hu as <-. injection Hp as <-.
    vm_compute in Hcredentials. injection Hcredentials as <-.
    split; vm_compute; reflexivity.
Qed.

Lemma build_writes_registry_config_witness :
  let popen := exits_with 0 [] in
  let kwargs := [ (lit "docker_registry_uri", VStr (lit "registry.example"));
                  (lit "registry_username", VStr (lit "user"));
                  (lit "registry_password", VStr (lit "pass")) ] in
  files (disk (build popen kwargs fresh_world).2) !! lit "/kaniko/.docker/config.json"
  = Some (registry_document (lit "registry.example") (lit "dXNlcjpwYXNz")).
Proof.
  intros popen kwargs.
  set (w1 := (on_this (configure kwargs) fresh_world).2).
  refine (proj1 (build_writes_registry_config popen kwargs fresh_world w1
                   (lit "/kaniko") (VStr (lit "registry.example"))
                   (VStr (lit "user")) (VStr (lit "pass"))
                   (lit "registry.example") (lit "user") (lit "pass")
                   (bytes "user:pass") _ _ _ _ _ _ _ _ _ _ _ _ _));
    vm_compute; reflexivity.
Defined.

(** C4 as stated fails: a fresh object, with no credentials set,
    makes [build] write the key [null] and under [auth] the text
    [Tm9uZTpOb25l], the base64 encoding of [None:None]; the encoding
    of [null:null] is [bnVsbDpudWxs]. *)
Lemma build_writes_None_credentials :
  files (disk (build (exits_with 0 []) [] fresh_world).2)
    !! lit "/kaniko/.docker/config.json"
  = Some (registry_document (lit "null") (base64_text "None:None")) /\
  base64_text "None:None" = lit "Tm9uZTpOb25l" /\
  base64_text "null:null" = lit "bnVsbDpudWxs" /\
  base64_text "None:None" <> base64_text "null:null".
Proof.
  repeat split; try (vm_compute; reflexivity). vm_compute. discriminate.
Qed.

(** ** The tokens of each kind of setting *)

Lemma call_shell_part_method (self : Kaniko) (h : str) (command : list str) :
  well_formed self -> startswith (lit "_") h = true ->
  call_shell_part self h command =
  match assoc h shell_part_methods with
  | Some method => method self command
  | None => Raise AttributeError
  end.
Proof.
  intros Hwf Hprivate. unfold call_shell_part.
  now rewrite (well_formed_no_private self h Hwf Hprivate).
Qed.

Lemma call_list_setting (self : Kaniko) (setting flag : str) (command : list str) :
  well_formed self -> (setting, flag) ∈ list_settings ->
  handler_of setting ∈ handler_names /\
  setting_of (handler_of setting) = setting /\
  call_shell_part self (handler_of setting) command
  = read self setting ≫= fun x => for_each_append flag x command.
Proof.
  intros Hwf Hin. unfold list_settings in Hin.
  repeat (apply elem_of_cons in Hin as [Heq | Hin];
          [ injection Heq as -> ->;
            split; [compute_done |]; split; [reflexivity |];
            rewrite call_shell_part_method by (assumption || reflexivity);
            reflexivity |]).
  now apply elem_of_nil in Hin.
Qed.


Lemma call_enum_setting (self : Kaniko) (setting flag : str) (command : list str) :
  well_formed self -> (setting, flag) ∈ enum_settings ->
  handler_of setting ∈ handler_names /\
  setting_of (handler_of setting) = setting /\
  call_shell_part self (handler_of setting) command
  = read self setting ≫= fun x => if_append_value flag x command.
Proof.
  intros Hwf Hin. unfold enum_settings in Hin.
  repeat (apply elem_of_cons in Hin as [Heq | Hin];
          [ injection Heq as -> ->;
            split; [compute_done |]; split; [reflexivity |];
            rewrite call_shell_part_method by (assumption || reflexivity);
            reflexivity |]).
  now apply elem_of_nil in Hin.
Qed.

Lemma call_destination (self : Kaniko) (command : list str) :
  well_formed self ->
  handler_of (lit "destination") ∈ handler_names /\
  setting_of (handler_of (lit "destination")) = lit "destination" /\
  call_shell_part self (handler_of (lit "destination")) command
  = _get_shell_part_destination self command.
Proof.
  intros Hwf. split; [compute_done |]. split; [reflexivity |].
  rewrite call_shell_part_method by (assumption || reflexivity). reflexivity.
Qed.

Lemma with_attribute_twice (self : Kaniko) (name : str) (a b : value) :
  with_attribute (with_attribute self name a) name b = with_attribute self name b.
Proof. unfold with_attribute. simpl. now rewrite insert_insert_eq. Qed.

(** From the command of the object with the setting put to a value
    for which the handler appends nothing, to the command with any
    value for which the handler returns: the tokens of the handler
    are inserted at one place, the same for every value. *)
Lemma setting_production (self : Kaniko) (setting : str) (r : rule)
  (baseline : value) (base : list str) :
  well_formed self ->
  handler_of setting ∈ handler_names ->
  setting_of (handler_of setting) = setting ->
  (forall self', well_formed self' ->
     call_shell_part self' (handler_of setting) []
     = read self' setting ≫= fun x => r x []) ->
  r baseline [] = Ok [] ->
  shell_command (with_attribute self setting baseline) = Ok base ->
  exists pre post,
    base = pre ++ post /\
    forall x part,
      r x [] = Ok part ->
      shell_command (with_attribute self setting x) = Ok (pre ++ part ++ post).
Proof.
  intros Hwf Hh Hsetting Hcall Hbaseline Hbase.
  assert (Hin : setting ∈ _configure_attribute_names self).
  { destruct Hwf as [-> _]. rewrite <- Hsetting. now apply handler_names_settings. }
  assert (Hwf' : forall x, well_formed (with_attribute self setting x))
    by (intros x; now apply well_formed_with_attribute).
  destruct (shell_command_frame _ _ base (Hwf' baseline) Hh Hbase)
    as (pre & post & part0 & Hpart0 & -> & Hframe).
  rewrite (Hcall _ (Hwf' baseline)), read_with_attribute_eq in Hpart0.
  simpl in Hpart0. rewrite Hbaseline in Hpart0. injection Hpart0 as <-.
  exists pre, post. split; [reflexivity |]. intros x part Hpart.
  rewrite Hsetting in Hframe. specialize (Hframe x part).
  rewrite with_attribute_twice in Hframe. apply Hframe.
  rewrite (Hcall _ (Hwf' x)), read_with_attribute_eq. exact Hpart.
Qed.

Lemma append_each_Ok (flag : str) (items : list value) (texts : list str) :
  Forall2 (fun item text => format_value item = Ok text) items texts ->
  append_each flag items [] = Ok (map (app flag) texts).
Proof.
  induction 1 as [| item text items texts Htext _ IH]; simpl; [reflexivity |].
  rewrite Htext. simpl. rewrite append_each_appends, IH. reflexivity.
Qed.







(** C7, as the code has it: on an object whose other settings give a
    command, when [destination] holds a list of N elements the
    command contains exactly N [--destination] tokens, one per
    element, in the order of the list; when it holds a value that is
    not a list and is true in Python's sense, such as a string that
    is not empty, the command contains exactly one
    [--destination=value] token; when it holds a false value, null or
    the empty string, the command contains none. *)
Theorem destination_tokens (self : Kaniko) (base : list str) :
  well_formed self ->
  shell_command (with_attribute self (lit "destination") VNone) = Ok base ->
  exists pre post,
    base = pre ++ post /\
    (forall items texts,
       Forall2 (fun item text => format_value item = Ok text) items texts ->
       shell_command (with_attribute self (lit "destination") (VList items))
       = Ok (pre ++ map (app (lit "--destination=")) texts ++ post) /\
       length (map (app (lit "--destination=")) texts) = length items) /\
    (forall x text,
       isinstance_list x = false -> truthy x = true ->
       format_value x = Ok text ->
       shell_command (with_attribute self (lit "destination") x)
       = Ok (pre ++ [lit "--destination=" ++ text] ++ post)) /\
    (forall x,
       isinstance_list x = false -> truthy x = false ->
       shell_command (with_attribute self (lit "destination") x)
       = Ok (pre ++ post)).
Proof.
  intros Hwf Hbase.
  destruct (call_destination self [] Hwf) as (Hh & Hsetting & _).
  pose (r := fun (destination : value) (command : list str) =>
    if truthy destination then
      if isinstance_list destination then
        for_each_append (lit "--destination=") destination command
      else
        text ← format_value destination;
        Ok (append command (lit "--destination=" ++ text))
    else Ok command).
  destruct (setting_production self (lit "destination") r VNone base
              Hwf Hh Hsetting) as (pre & post & -> & Hproduce);
    try assumption; try reflexivity.
  { intros self' Hwf'. now apply call_destination. }
  exists pre, post. split; [reflexivity |]. split; [| split].
  - intros items texts Htexts. split.
    + apply Hproduce. unfold r. destruct Htexts as [| item text items texts Htext Hrest].
      * reflexivity.
      * change (append_each (lit "--destination=") (item :: items) []
                = Ok (map (app (lit "--destination=")) (text :: texts))).
        apply append_each_Ok. now constructor.
    + rewrite length_map. symmetry. eapply Forall2_length, Htexts.
  - intros x text Hlist Htruthy Htext. apply Hproduce. unfold r.
    now rewrite Htruthy, Hlist, Htext.
  - intros x _ Htruthy. rewrite (Hproduce x []); [reflexivity |].
    unfold r. now rewrite Htruthy.
Qed.

Lemma destination_tokens_witness :
  shell_command (with_attribute __init__ (lit "destination") VNone)
  = Ok [lit "/kaniko/executor"] /\
  shell_command (with_attribute __init__ (lit "destination")
                   (VList [VStr (lit "r/a"); VStr (lit "r/b")]))
  = Ok [lit "/kaniko/executor"; lit "--destination=r/a"; lit "--destination=r/b"] /\
  shell_command (with_attribute __init__ (lit "destination") (VStr (lit "r/a")))
  = Ok [lit "/kaniko/executor"; lit "--destination=r/a"] /\
  shell_command (with_attribute __init__ (lit "destination") (VStr []))
  = Ok [lit "/kaniko/executor"].
Proof.
  assert (Hbase : shell_command (with_attribute __init__ (lit "destination") VNone)
                  = Ok [lit "/kaniko/executor"])
    by (vm_compute; reflexivity).
  split; [exact Hbase |].
  destruct (destination_tokens __init__ [lit "/kaniko/executor"]
              well_formed_init Hbase)
    as (pre & post & Hsplit & Hlist & Hscalar & Hfalse).
  destruct (Hlist [VStr (lit "r/a"); VStr (lit "r/b")] [lit "r/a"; lit "r/b"])
    as [Htokens _]; [repeat constructor |].
  assert (Htoken := Hscalar (VStr (lit "r/a")) (lit "r/a") eq_refl eq_refl eq_refl).
  assert (Hnone := Hfalse (VStr []) eq_refl eq_refl).
  split; [| split].
  - after_executor Hsplit Htokens.
  - after_executor Hsplit Htoken.
  - rewrite Hnone, Hsplit. reflexivity.
Defined.

(** C7 as stated fails: after [configure(destination='')] the setting
    holds a scalar, the empty string, and the command has no
    [--destination] token where the claim has exactly one. *)
Lemma destination_empty_string :
  let (result, self) := configure [(lit "destination", VStr [])] __init__ in
  result = Ok tt /\
  getattr self (lit "destination") = Ok (VStr []) /\
  isinstance_list (VStr []) = false /\
  shell_command self = Ok [lit "/kaniko/executor"] /\
  Forall (fun token => startswith (lit "--destination=") token = false)
    [lit "/kaniko/executor"].
Proof.
  vm_compute. repeat split. repeat constructor.
Qed.

(** ** [configure] *)

Lemma configure_cons (key : str) (v : value) (rest : list (str * value))
  (self : Kaniko) :
  configure ((key, v) :: rest) self =
  if bool_decide (key ∉ _configure_attribute_names self) then configure rest self
  else
    match _is_callable self key with
    | Ok true => configure rest self
    | Ok false =>
        match setattr self key v with
        | Ok self' => configure rest self'
        | Raise e => (Raise e, self)
        | Unmodelled => (Unmodelled, self)
        end
    | Raise e => (Raise e, self)
    | Unmodelled => (Unmodelled, self)
    end.
Proof.
  cbn [configure]. unfold mbind, Eff_bind, get, lift, put, mret, Eff_ret.
  destruct (bool_decide (key ∉ _configure_attribute_names self)); [reflexivity |].
  destruct (_is_callable self key) as [[|] | e |]; try reflexivity.
Qed.

Lemma getattr_plain (self : Kaniko) (name : str) :
  plain_name name = true -> getattr self name = plain_attribute self name.
Proof.
  unfold plain_name, getattr, plain_attribute. intros H.
  apply andb_true_iff in H as [H Hclass]. apply andb_true_iff in H as [Hdunder Hnames].
  apply negb_true_iff in Hdunder. apply negb_true_iff in Hnames.
  apply bool_decide_eq_false in Hnames.
  rewrite Hdunder.
  destruct (class_lookup name) as [[default | |] |]; try discriminate;
    destruct (__dict__ self !! name); try reflexivity;
    destruct (decide (name = lit "_configure_attribute_names")); congruence.
Qed.

Lemma setattr_plain (self : Kaniko) (name : str) (v : value) :
  plain_name name = true -> setattr self name v = Ok (with_attribute self name v).
Proof.
  unfold plain_name, setattr, with_attribute. intros H.
  apply andb_true_iff in H as [H Hclass]. apply andb_true_iff in H as [Hdunder Hnames].
  apply negb_true_iff in Hdunder. apply negb_true_iff in Hnames.
  rewrite Hdunder, Hnames. simpl.
  destruct (class_lookup name) as [[default | |] |]; try discriminate; reflexivity.
Qed.

(** Every name of [_configure_attribute_names] but [shell_command] is
    plain, and is bound in the class. *)
Lemma configure_names_plain (name : str) :
  name ∈ _configure_attribute_names __init__ ->
  name <> lit "shell_command" ->
  plain_name name = true /\ is_Some (class_lookup name).
Proof.
  intros Hin Hne.
  assert (Hcheck : forallb (fun name =>
              bool_decide (name = lit "shell_command")
              || (plain_name name
                  && match class_lookup name with Some _ => true | None => false end))
            (_configure_attribute_names __init__) = true)
    by (vm_compute; reflexivity).
  rewrite forallb_forall in Hcheck.
  apply list_elem_of_In in Hin. specialize (Hcheck name Hin).
  apply orb_true_iff in Hcheck as [Heq | Hplain].
  - apply bool_decide_eq_true in Heq. congruence.
  - apply andb_true_iff in Hplain as [Hplain Hclass]. split; [assumption |].
    destruct (class_lookup name); [eauto | discriminate].
Qed.

Lemma is_callable_plain (self : Kaniko) (name : str) :
  name ∈ _configure_attribute_names __init__ ->
  name <> lit "shell_command" ->
  exists v, plain_attribute self name = Ok v /\
            _is_callable self name = Ok (callable v).
Proof.
  intros Hin Hne. destruct (configure_names_plain name Hin Hne) as [Hplain [m Hm]].
  unfold _is_callable, getattr_default. rewrite (getattr_plain self name Hplain).
  unfold plain_attribute. rewrite Hm.
  destruct (__dict__ self !! name) as [v |]; [eauto |].
  destruct m; eauto.
Qed.

Lemma assoc_None {A} (name : str) (l : list (str * A)) :
  name ∉ l.*1 -> assoc name l = None.
Proof.
  induction l as [| [k a] l IH]; simpl; intros Hnot; [reflexivity |].
  apply not_elem_of_cons in Hnot as [Hne Hnot].
  destruct (decide (k = name)); [congruence | auto].
Qed.

Lemma assoc_elem_NoDup {A} (name : str) (a : A) (l : list (str * A)) :
  NoDup l.*1 -> (name, a) ∈ l -> assoc name l = Some a.
Proof.
  induction l as [| [k b] l IH]; simpl; intros Hnodup Hin.
  - now apply elem_of_nil in Hin.
  - apply NoDup_cons in Hnodup as [Hk Hnodup].
    apply elem_of_cons in Hin as [[= -> ->] | Hin].
    + now rewrite decide_True.
    + rewrite decide_False; [auto |]. intros ->. apply Hk.
      change name with (name, a).1. now apply list_elem_of_fmap_2.
Qed.

Lemma stores_with_attribute_ne (self : Kaniko) (key name : str) (v : value) :
  _configure_attribute_names self = _configure_attribute_names __init__ ->
  key <> name -> name <> lit "shell_command" ->
  stores (with_attribute self key v) name = stores self name.
Proof.
  intros Hnames Hne Hshell. unfold stores. simpl.
  destruct (bool_decide (name ∈ _configure_attribute_names self)) eqn:Hin;
    [| reflexivity].
  apply bool_decide_eq_true in Hin. rewrite Hnames in Hin. simpl.
  assert (Hsame : plain_attribute (with_attribute self key v) name
                  = plain_attribute self name).
  { unfold plain_attribute, with_attribute. cbn [__dict__].
    now rewrite lookup_insert_ne. }
  destruct (is_callable_plain self name Hin Hshell) as (x & Hx & ->).
  destruct (is_callable_plain (with_attribute self key v) name Hin Hshell)
    as (x' & Hx' & ->).
  rewrite Hsame, Hx in Hx'. now injection Hx' as <-.
Qed.

(** What [configure] leaves in the instance: under each key it was
    given, the value given if it stores it, and the former contents
    otherwise. *)
Lemma configure_dict (kwargs : list (str * value)) :
  forall self,
    _configure_attribute_names self = _configure_attribute_names __init__ ->
    NoDup kwargs.*1 ->
    lit "shell_command" ∉ kwargs.*1 ->
    exists self',
      configure kwargs self = (Ok tt, self') /\
      _configure_attribute_names self' = _configure_attribute_names self /\
      forall name,
        __dict__ self' !! name =
        match assoc name kwargs with
        | Some v => if stores self name then Some v else __dict__ self !! name
        | None => __dict__ self !! name
        end.
Proof.
  induction kwargs as [| [key v] rest IH]; intros self Hnames Hnodup Hshell.
  - exists self. repeat split.
  - cbn [fmap list_fmap fst] in Hnodup, Hshell.
    apply NoDup_cons in Hnodup as [Hkey Hnodup].
    apply not_elem_of_cons in Hshell as [Hne Hshell].
    rewrite configure_cons.
    assert (Hskip : stores self key = false ->
              exists self',
                configure rest self = (Ok tt, self') /\
                _configure_attribute_names self' = _configure_attribute_names self /\
                forall name,
                  __dict__ self' !! name =
                  match assoc name ((key, v) :: rest) with
                  | Some v => if stores self name then Some v else __dict__ self !! name
                  | None => __dict__ self !! name
                  end).
    { intros Hstores. destruct (IH self Hnames Hnodup Hshell) as (self' & Hrun & Hn & Hdict).
      exists self'. split; [assumption |]. split; [assumption |].
      intros name. rewrite Hdict. cbn [assoc].
      destruct (decide (key = name)) as [<- | _]; [| reflexivity].
      now rewrite (assoc_None key rest Hkey), Hstores. }
    destruct (bool_decide (key ∉ _configure_attribute_names self)) eqn:Hin.
    { apply Hskip. unfold stores. apply bool_decide_eq_true in Hin.
      now rewrite bool_decide_eq_false_2. }
    apply bool_decide_eq_false in Hin. apply dec_stable in Hin.
    assert (Hin' := Hin). rewrite Hnames in Hin'.
    destruct (is_callable_plain self key Hin' (not_eq_sym Hne)) as (x & Hx & Hcallable).
    rewrite Hcallable. destruct (callable x) eqn:Hcx.
    { apply Hskip. unfold stores. rewrite Hcallable. apply andb_false_r. }
    destruct (configure_names_plain key Hin' (not_eq_sym Hne)) as [Hplain _].
    rewrite (setattr_plain self key v Hplain).
    destruct (IH (with_attribute self key v) Hnames Hnodup Hshell)
      as (self' & Hrun & Hn & Hdict).
    exists self'. split; [assumption |]. split; [assumption |].
    intros name. rewrite Hdict. cbn [assoc].
    destruct (decide (key = name)) as [<- | Hother].
    + rewrite (assoc_None key rest Hkey). unfold stores.
      rewrite Hcallable, bool_decide_eq_true_2 by assumption.
      simpl. apply lookup_insert_eq.
    + simpl. rewrite lookup_insert_ne by assumption.
      destruct (assoc name rest) as [v' |] eqn:Hassoc; [| reflexivity].
      rewrite stores_with_attribute_ne; [reflexivity | assumption.. |].
      intros ->. apply Hshell. apply assoc_Some_elem in Hassoc.
      change (lit "shell_command") with (lit "shell_command", v').1.
      now apply list_elem_of_fmap_2.
Qed.

Lemma getattr_missing (self self' : Kaniko) (key : str) :
  key <> lit "shell_command" ->
  __dict__ self' !! key = __dict__ self !! key ->
  hasattr self key = Ok false -> hasattr self' key = Ok false.
Proof.
  intros Hne Hdict. unfold hasattr, getattr. rewrite Hdict.
  destruct (is_dunder key); [discriminate |].
  destruct (class_lookup key) as [[default | |] |].
  - destruct (__dict__ self !! key); [discriminate |].
    destruct (decide (key = lit "_configure_attribute_names")); discriminate.
  - destruct (__dict__ self !! key); [discriminate |].
    destruct (decide (key = lit "_configure_attribute_names")); discriminate.
  - rewrite decide_False by assumption. discriminate.
  - destruct (__dict__ self !! key); [discriminate |].
    destruct (decide (key = lit "_configure_attribute_names")); [discriminate |].
    trivial.
Qed.

(** C6, as the code has it: for every mapping passed to [configure]
    that does not name the read-only property [shell_command],
    [configure] raises nothing; afterwards every key that is one of
    [_configure_attribute_names] and whose attribute was not callable
    holds the supplied value; every other key, unknown to the object
    or naming one of its methods, is skipped: no attribute is created
    or changed for it, and an attribute the object did not have it
    still does not have. *)
Theorem configure_stores_recognized (kwargs : list (str * value)) (self : Kaniko) :
  _configure_attribute_names self = _configure_attribute_names __init__ ->
  NoDup kwargs.*1 ->
  lit "shell_command" ∉ kwargs.*1 ->
  exists self',
    configure kwargs self = (Ok tt, self') /\
    forall key v, (key, v) ∈ kwargs ->
      (key ∈ _configure_attribute_names self ->
       _is_callable self key = Ok false ->
       getattr self' key = Ok v) /\
      (key ∉ _configure_attribute_names self \/ _is_callable self key = Ok true ->
       __dict__ self' !! key = __dict__ self !! key /\
       (hasattr self key = Ok false -> hasattr self' key = Ok false)).
Proof.
  intros Hnames Hnodup Hshell.
  destruct (configure_dict kwargs self Hnames Hnodup Hshell)
    as (self' & Hrun & Hn & Hdict).
  exists self'. split; [exact Hrun |]. intros key v Hin.
  assert (Hne : key <> lit "shell_command").
  { intros ->. apply Hshell. change (lit "shell_command") with (lit "shell_command", v).1.
    now apply list_elem_of_fmap_2. }
  specialize (Hdict key). rewrite (assoc_elem_NoDup key v kwargs Hnodup Hin) in Hdict.
  split.
  - intros Hkey Hcallable.
    assert (Hstores : stores self key = true).
    { unfold stores. now rewrite Hcallable, bool_decide_eq_true_2. }
    rewrite Hstores in Hdict. rewrite Hnames in Hkey.
    destruct (configure_names_plain key Hkey Hne) as [Hplain _].
    rewrite (getattr_plain self' key Hplain). unfold plain_attribute.
    now rewrite Hdict.
  - intros Hskip.
    assert (Hstores : stores self key = false).
    { unfold stores. destruct Hskip as [Hkey | Hcallable].
      - now rewrite bool_decide_eq_false_2.
      - rewrite Hcallable. apply andb_false_r. }
    rewrite Hstores in Hdict. split; [exact Hdict |].
    now apply getattr_missing.
Qed.

Lemma configure_stores_recognized_witness :
  NoDup test_config.*1 /\
  (lit "shell_command" ∉ test_config.*1) /\
  exists self',
    configure test_config __init__ = (Ok tt, self') /\
    getattr self' (lit "cache") = Ok (VBool true) /\
    hasattr self' (lit "nonexistent_attribute") = Ok false.
Proof.
  assert (Hnodup : NoDup test_config.*1) by compute_done.
  assert (Hshell : lit "shell_command" ∉ test_config.*1) by compute_done.
  split; [exact Hnodup |]. split; [exact Hshell |].
  destruct (configure_stores_recognized test_config __init__ eq_refl Hnodup Hshell)
    as (self' & Hrun & Hkeys).
  exists self'. split; [exact Hrun |]. split.
  - destruct (Hkeys (lit "cache") (VBool true)) as [Hstored _].
    + unfold test_config. do 2 apply list_elem_of_further. apply list_elem_of_here.
    + apply Hstored; [compute_done | vm_compute; reflexivity].
  - destruct (Hkeys (lit "nonexistent_attribute") (VBool true)) as [_ Hskipped].
    + unfold test_config. do 4 apply list_elem_of_further. apply list_elem_of_here.
    + apply Hskipped; [left; compute_done | vm_compute; reflexivity].
Defined.

(** C6 as stated fails: [build] is one of
    [_configure_attribute_names], yet [configure(build=True)] leaves
    the method where it is; and [_parse_logs] is not one of them, yet
    after [configure(_parse_logs=True)] the object has that attribute. *)
Lemma configure_skips_methods :
  lit "build" ∈ _configure_attribute_names __init__ /\
  (let (result, self) := configure [(lit "build", VBool true)] __init__ in
   result = Ok tt /\
   getattr self (lit "build") = Ok VFunction /\
   getattr self (lit "build") <> Ok (VBool true)) /\
  (lit "_parse_logs" ∉ _configure_attribute_names __init__) /\
  (let (result, self) := configure [(lit "_parse_logs", VBool true)] __init__ in
   result = Ok tt /\ hasattr self (lit "_parse_logs") = Ok true).
Proof.
  split; [compute_done |]. split; [| split; [compute_done |]].
  - vm_compute. repeat split. discriminate.
  - vm_compute. repeat split.
Qed.

(** X10: [configure] keeps an object well formed, whatever it is given
    and however it ends: it never creates an attribute under a name
    outside [_configure_attribute_names], so never one that starts
    with an underscore, and never changes that tuple. *)
Lemma configure_well_formed (kwargs : list (str * value)) :
  forall self result self',
    well_formed self -> configure kwargs self = (result, self') ->
    well_formed self'.
Proof.
  induction kwargs as [| [key v] rest IH]; intros self result self' Hwf.
  - intros [= _ <-]. assumption.
  - rewrite configure_cons.
    destruct (bool_decide (key ∉ _configure_attribute_names self)) eqn:Hin;
      [apply IH; assumption |].
    apply bool_decide_eq_false in Hin. apply dec_stable in Hin.
    destruct (_is_callable self key) as [[|] | e |];
      try (intros [= _ <-]; assumption); [apply IH; assumption |].
    destruct (setattr self key v) as [self1 | e |] eqn:Hset;
      try (intros [= _ <-]; assumption).
    apply IH. unfold setattr in Hset.
    destruct (is_dunder key || bool_decide (key = lit "_configure_attribute_names"));
      [discriminate |].
    destruct (class_lookup key) as [[default | |] |]; try discriminate;
      injection Hset as <-; now apply well_formed_with_attribute.
Qed.

(** * Further properties of the class *)

(** ** The command: flags, order, and what it does not contain *)




Lemma run_shell_parts_parts (self : Kaniko) (hs : list str) :
  well_formed self -> Forall (fun h => h ∈ handler_names) hs ->
  forall command command',
    run_shell_parts self hs command = Ok command' ->
    exists parts,
      Forall2 (fun h part => call_shell_part self h [] = Ok part) hs parts /\
      command' = command ++ concat parts.
Proof.
  intros Hwf Hhs. induction Hhs as [| h hs Hh _ IH]; intros command command'; simpl.
  - intros [= <-]. exists []. split; [constructor | now rewrite app_nil_r].
  - rewrite call_shell_part_appends by assumption. intros Hrun.
    apply M_bind_Ok in Hrun as (command1 & Hcall & Hrun).
    apply M_fmap_Ok in Hcall as (part & Hpart & ->).
    destruct (IH _ _ Hrun) as (parts & Hparts & ->).
    exists (part :: parts). split; [now constructor |].
    simpl. now rewrite app_assoc.
Qed.

(** X2: the command of a well-formed object is the executor path,
    [kaniko_path] followed by [/executor], and then the tokens of the
    handlers one handler after the other in the sorted order of their
    names ([build_args], [cache], [cache_dir], [cache_repo],
    [cleanup], [context], [destination], ...), which is not the order
    in which the class declares them. *)
Theorem shell_command_order (self : Kaniko) (command : list str) :
  well_formed self ->
  shell_command self = Ok command ->
  exists kaniko_path parts,
    read self (lit "kaniko_path") = Ok (VStr kaniko_path) /\
    Forall2 (fun h part => call_shell_part self h [] = Ok part)
      handler_names parts /\
    command = (kaniko_path ++ lit "/executor") :: concat parts.
Proof.
  intros Hwf Hcommand. unfold shell_command in Hcommand.
  rewrite (shell_part_handlers_well_formed self Hwf) in Hcommand.
  apply M_bind_Ok in Hcommand as (x & Hread & Hcommand).
  apply M_bind_Ok in Hcommand as (executor_path & Hadd & Hrun).
  destruct x; try discriminate. simpl in Hadd. injection Hadd as <-.
  destruct (run_shell_parts_parts self handler_names Hwf) with (2 := Hrun)
    as (parts & Hparts & ->).
  { apply Forall_forall. auto. }
  exists s, parts. repeat split; assumption.
Qed.

Lemma shell_command_order_witness :
  let self := with_attribute
                (with_attribute __init__ (lit "context") (VStr (lit "dir")))
                (lit "cleanup") (VBool true) in
  shell_command self
  = Ok [lit "/kaniko/executor"; lit "--cleanup"; lit "--context=dir"] /\
  exists kaniko_path parts,
    read self (lit "kaniko_path") = Ok (VStr kaniko_path) /\
    Forall2 (fun h part => call_shell_part self h [] = Ok part)
      handler_names parts /\
    [lit "/kaniko/executor"; lit "--cleanup"; lit "--context=dir"]
    = (kaniko_path ++ lit "/executor") :: concat parts.
Proof.
  intros self.
  assert (Hcommand : shell_command self
            = Ok [lit "/kaniko/executor"; lit "--cleanup"; lit "--context=dir"])
    by (vm_compute; reflexivity).
  split; [exact Hcommand |].
  apply (shell_command_order self); [| exact Hcommand].
  apply well_formed_with_attribute; [| compute_done].
  apply well_formed_with_attribute; [apply well_formed_init | compute_done].
Defined.

Lemma handler_names_not_registry (h : str) :
  h ∈ handler_names -> setting_of h ∉ registry_settings.
Proof.
  assert (H : Forall (fun h => setting_of h ∉ registry_settings) handler_names)
    by compute_done.
  rewrite Forall_forall in H. apply H.
Qed.

(** X3: the registry settings never reach the command line: giving
    [docker_registry_uri], [registry_username] or [registry_password]
    any value leaves [shell_command] as it was. *)
Theorem shell_command_ignores_registry_settings (self : Kaniko) (name : str)
  (v : value) :
  well_formed self ->
  name ∈ registry_settings ->
  shell_command (with_attribute self name v) = shell_command self.
Proof.
  intros Hwf Hname.
  assert (Hwf' : well_formed (with_attribute self name v)).
  { apply well_formed_with_attribute; [assumption |].
    destruct Hwf as [-> _]. revert Hname. unfold registry_settings.
    intros Hname.
    repeat (apply elem_of_cons in Hname as [-> | Hname]; [compute_done |]).
    now apply elem_of_nil in Hname. }
  unfold shell_command.
  rewrite (shell_part_handlers_well_formed _ Hwf),
    (shell_part_handlers_well_formed _ Hwf').
  rewrite read_with_attribute_ne.
  2: { intros ->. revert Hname. compute_done. }
  destruct (read self (lit "kaniko_path")) as [kaniko_path | e |]; try reflexivity.
  cbn [mbind M_bind].
  destruct (add_str kaniko_path (lit "/executor")) as [executor_path | e |];
    try reflexivity.
  cbn [mbind M_bind]. symmetry. apply run_shell_parts_local; try assumption.
  apply Forall_forall. intros h Hh. split; [assumption |].
  rewrite read_with_attribute_ne; [reflexivity |].
  intros ->. now apply (handler_names_not_registry h Hh).
Qed.

Lemma shell_command_ignores_registry_settings_witness :
  shell_command (with_attribute __init__ (lit "registry_password")
                   (VStr (lit "secret")))
  = Ok [lit "/kaniko/executor"].
Proof.
  rewrite shell_command_ignores_registry_settings.
  - vm_compute. reflexivity.
  - apply well_formed_init.
  - compute_done.
Defined.




(** X5: a list setting that holds a value that cannot be iterated
    (null, a boolean, a number, an enumeration member, a function)
    leaves the object without a command: [shell_command] does not
    return. *)
Theorem list_setting_not_iterable (self : Kaniko) (setting flag : str) (x : value) :
  well_formed self ->
  (setting, flag) ∈ list_settings ->
  read self setting = Ok x ->
  py_iter x = Raise TypeError ->
  forall command, shell_command self <> Ok command.
Proof.
  intros Hwf Hin Hread Hiter command Hcommand.
  destruct (call_list_setting self setting flag [] Hwf Hin) as (Hh & _ & Hcall).
  destruct (shell_command_frame self _ command Hwf Hh Hcommand)
    as (pre & post & part & Hpart & _).
  rewrite Hcall, Hread in Hpart. simpl in Hpart. unfold for_each_append in Hpart.
  rewrite Hiter in Hpart. discriminate.
Qed.

Lemma list_setting_not_iterable_witness :
  let self := with_attribute __init__ (lit "build_args") VNone in
  shell_command self = Raise TypeError /\
  forall command, shell_command self <> Ok command.
Proof.
  intros self. split; [vm_compute; reflexivity |].
  apply (list_setting_not_iterable self (lit "build_args") (lit "--build-arg=") VNone).
  - apply well_formed_with_attribute; [apply well_formed_init | compute_done].
  - compute_done.
  - vm_compute. reflexivity.
  - reflexivity.
Defined.

(** X6: [snapshot_mode] and [verbosity] must hold a member of an
    enumeration or a false value: with any other true value, such as
    the string [debug], the handler fails on [.value] and
    [shell_command] does not return. *)
Theorem enum_setting_not_member (self : Kaniko) (setting flag : str) (x : value) :
  well_formed self ->
  (setting, flag) ∈ enum_settings ->
  read self setting = Ok x ->
  truthy x = true ->
  (forall m, x <> VSnapshotMode m) ->
  (forall v, x <> VVerbosity v) ->
  forall command, shell_command self <> Ok command.
Proof.
  intros Hwf Hin Hread Htruthy Hmode Hverbosity command Hcommand.
  destruct (call_enum_setting self setting flag [] Hwf Hin) as (Hh & _ & Hcall).
  destruct (shell_command_frame self _ command Hwf Hh Hcommand)
    as (pre & post & part & Hpart & _).
  rewrite Hcall, Hread in Hpart. simpl in Hpart. unfold if_append_value in Hpart.
  rewrite Htruthy in Hpart.
  destruct x; try discriminate; [now apply (Hmode m) | now apply (Hverbosity v)].
Qed.

Lemma enum_setting_not_member_witness :
  let self := with_attribute __init__ (lit "verbosity") (VStr (lit "debug")) in
  shell_command self = Raise AttributeError /\
  forall command, shell_command self <> Ok command.
Proof.
  intros self. split; [vm_compute; reflexivity |].
  apply (enum_setting_not_member self (lit "verbosity") (lit "--verbosity=")
           (VStr (lit "debug"))).
  - apply well_formed_with_attribute; [apply well_formed_init | compute_done].
  - compute_done.
  - vm_compute. reflexivity.
  - reflexivity.
  - discriminate.
  - discriminate.
Defined.

(** ** More on [configure] *)

(** X7: a mapping all of whose keys are unknown to the object is
    ignored as a whole: [configure] raises nothing and the object is
    exactly what it was. *)
Theorem configure_unrecognized_noop (kwargs : list (str * value)) (self : Kaniko) :
  Forall (fun item => item.1 ∉ _configure_attribute_names self) kwargs ->
  configure kwargs self = (Ok tt, self).
Proof.
  induction 1 as [| [key v] rest Hkey _ IH]; [reflexivity |].
  rewrite configure_cons. simpl in Hkey.
  now rewrite bool_decide_eq_true_2.
Qed.

Lemma configure_unrecognized_noop_witness :
  configure [ (lit "nonexistent_attribute", VBool true);
              (lit "_parse_logs", VNone) ] __init__
  = (Ok tt, __init__).
Proof.
  apply configure_unrecognized_noop.
  repeat constructor; compute_done.
Defined.

(** X8: passing one mapping and then another to [configure] is the
    same as passing their items in one call, an error in the first
    ending both. *)
Theorem configure_app (first second : list (str * value)) (self : Kaniko) :
  configure (first ++ second) self =
  match configure first self with
  | (Ok _, self') => configure second self'
  | failed => failed
  end.
Proof.
  revert self. induction first as [| [key v] rest IH]; intros self; [reflexivity |].
  rewrite <- app_comm_cons, !configure_cons.
  destruct (bool_decide (key ∉ _configure_attribute_names self)); [apply IH |].
  destruct (_is_callable self key) as [[|] | e |]; try reflexivity; [apply IH |].
  destruct (setattr self key v) as [self' | e |]; try reflexivity. apply IH.
Qed.

Lemma stores_same_attribute (self self' : Kaniko) (name : str) :
  _configure_attribute_names self = _configure_attribute_names __init__ ->
  _configure_attribute_names self' = _configure_attribute_names self ->
  __dict__ self' !! name = __dict__ self !! name ->
  name <> lit "shell_command" ->
  stores self' name = stores self name.
Proof.
  intros Hnames Hnames' Hdict Hne. unfold stores. rewrite Hnames'.
  destruct (bool_decide (name ∈ _configure_attribute_names self)) eqn:Hin;
    [| reflexivity].
  apply bool_decide_eq_true in Hin. rewrite Hnames in Hin. simpl.
  destruct (is_callable_plain self name Hin Hne) as (x & Hx & ->).
  destruct (is_callable_plain self' name Hin Hne) as (x' & Hx' & ->).
  unfold plain_attribute in Hx, Hx'. rewrite Hdict, Hx in Hx'.
  now injection Hx' as <-.
Qed.

(** X9: [configure] is idempotent: for a mapping without the key
    [shell_command], a second call with the same mapping raises
    nothing and leaves the object exactly as the first call left it. *)
Theorem configure_idempotent (kwargs : list (str * value)) (self : Kaniko) :
  _configure_attribute_names self = _configure_attribute_names __init__ ->
  NoDup kwargs.*1 ->
  lit "shell_command" ∉ kwargs.*1 ->
  exists self',
    configure kwargs self = (Ok tt, self') /\
    configure kwargs self' = (Ok tt, self').
Proof.
  intros Hnames Hnodup Hshell.
  destruct (configure_dict kwargs self Hnames Hnodup Hshell)
    as (self1 & Hrun1 & Hnames1 & Hdict1).
  assert (Hnames1' : _configure_attribute_names self1
                     = _configure_attribute_names __init__) by congruence.
  destruct (configure_dict kwargs self1 Hnames1' Hnodup Hshell)
    as (self2 & Hrun2 & Hnames2 & Hdict2).
  exists self1. split; [exact Hrun1 |]. rewrite Hrun2. f_equal.
  destruct self1 as [names1 dict1], self2 as [names2 dict2]. simpl in *.
  f_equal; [assumption |]. apply map_eq. intros name.
  rewrite Hdict2. destruct (assoc name kwargs) as [v |] eqn:Hassoc; [| reflexivity].
  assert (Hne : name <> lit "shell_command").
  { intros ->. apply Hshell. apply assoc_Some_elem in Hassoc.
    change (lit "shell_command") with (lit "shell_command", v).1.
    now apply list_elem_of_fmap_2. }
  specialize (Hdict1 name). rewrite Hassoc in Hdict1.
  destruct (stores {| _configure_attribute_names := names1; __dict__ := dict1 |} name)
    eqn:Hstores1; [| reflexivity].
  destruct (stores self name) eqn:Hstores; [now rewrite Hdict1 |].
  rewrite (stores_same_attribute self _ name) in Hstores1; try assumption; congruence.
Qed.

Lemma configure_idempotent_witness :
  exists self',
    configure test_config __init__ = (Ok tt, self') /\
    configure test_config self' = (Ok tt, self').
Proof.
  apply configure_idempotent; [reflexivity | compute_done | compute_done].
Defined.

Lemma configure_well_formed_witness :
  well_formed __init__ /\
  well_formed (configure ((lit "_secret", VBool true) :: test_config) __init__).2.
Proof.
  split; [apply well_formed_init |].
  eapply (configure_well_formed _ __init__); [apply well_formed_init |].
  apply surjective_pairing.
Defined.

(** X11: the key [shell_command] makes [configure] fail: the property
    has no setter, so when the command can be built the call raises
    [AttributeError]; in no case does it return, the object is left as
    it was when the key was reached, and the keys after it are not
    applied. *)
Theorem configure_shell_command_raises (self : Kaniko) (v : value)
  (rest : list (str * value)) :
  _configure_attribute_names self = _configure_attribute_names __init__ ->
  exists result,
    configure ((lit "shell_command", v) :: rest) self = (result, self) /\
    result <> Ok tt /\
    ((exists command, shell_command self = Ok command) ->
     result = Raise AttributeError).
Proof.
  intros Hnames. rewrite configure_cons, Hnames.
  assert (Hin : bool_decide
                  (lit "shell_command" ∉ _configure_attribute_names __init__)
                = false) by (vm_compute; reflexivity).
  rewrite Hin.
  assert (Hset : setattr self (lit "shell_command") v = Raise AttributeError)
    by reflexivity.
  assert (Hget : getattr self (lit "shell_command")
                 = command ← shell_command self; Ok (VList (map VStr command)))
    by reflexivity.
  unfold _is_callable, getattr_default. rewrite Hget, Hset.
  destruct (shell_command self) as [command | e |].
  - cbn. eexists. repeat split; discriminate.
  - destruct e; cbn; eexists; (split; [reflexivity |]);
      (split; [discriminate |]); intros [command Hcommand]; discriminate.
  - cbn. eexists. split; [reflexivity |]. split; [discriminate |].
    intros [command Hcommand]. discriminate.
Qed.

Lemma configure_shell_command_raises_witness :
  configure [(lit "shell_command", VList []); (lit "cache", VBool true)] __init__
  = (Raise AttributeError, __init__).
Proof.
  destruct (configure_shell_command_raises __init__ (VList [])
              [(lit "cache", VBool true)] eq_refl) as (result & -> & _ & Hresult).
  rewrite Hresult; [reflexivity |].
  eexists. vm_compute. reflexivity.
Defined.

(** ** More on [build] and [_write_config] *)

Lemma write_config_this (w : World) : this (_write_config w).2 = this w.
Proof.
  unfold _write_config, mbind, Eff_bind, get, lift, makedirs, open_for_writing,
    write_file.
  destruct (read (this w) (lit "kaniko_path")) as [kaniko_path | e |]; try reflexivity.
  destruct (os_path_join kaniko_path (lit ".docker")) as [folder | e |];
    try reflexivity.
  destruct (refuses (disk w) (Makedirs folder)); [reflexivity |].
  destruct (makedirs_encode_error folder); [reflexivity |].
  cbn [this disk refuses].
  destruct (fsencode_error (posix_join folder (lit "config.json"))); [reflexivity |].
  destruct (refuses (disk w) (OpenForWriting _)); [reflexivity |].
  cbn [with_file this disk refuses].
  destruct (_make_config (this w)) as [config | e |]; try reflexivity.
  destruct (json_dumps config) as [text | e |]; try reflexivity.
  destruct (refuses (disk w) (WriteAndClose _ text)); reflexivity.
Qed.

(** X12: the overrides given to [build] stay on the object: however
    [build] ends, the object is afterwards exactly what
    [configure] with the same mapping makes of it. *)
Theorem build_keeps_overrides (popen : Popen) (kwargs : list (str * value))
  (w : World) :
  this (build popen kwargs w).2 = (configure kwargs (this w)).2.
Proof.
  unfold build, mbind, Eff_bind, on_this.
  destruct (configure kwargs (this w)) as [[[] | e |] self1]; try reflexivity.
  pose proof (write_config_this {| this := self1; disk := disk w |}) as Hthis.
  destruct (_write_config {| this := self1; disk := disk w |}) as [[[] | e |] w2];
    try exact Hthis.
  simpl in Hthis. unfold get, lift, raise, mret, Eff_ret.
  destruct (shell_command (this w2)) as [command | e |]; try exact Hthis.
  destruct (popen command (disk w2)) as [res |]; [| exact Hthis].
  destruct (_parse_logs (stdout res)) as [body | e |]; try exact Hthis.
  destruct (negb (returncode res =? 0)%Z); exact Hthis.
Qed.

(** X13: when [kaniko_path] holds [None], a boolean, an integer, a
    list, a tuple, an enumeration member or a function (the values of
    this development that are not strings), [build] raises
    [TypeError] from [os.path.join] before it has created a
    directory, written a file or started the process. *)
Theorem build_kaniko_path_not_string (popen : Popen)
  (kwargs : list (str * value)) (w w1 : World) (x : value) :
  on_this (configure kwargs) w = (Ok tt, w1) ->
  read (this w1) (lit "kaniko_path") = Ok x ->
  (forall s, x <> VStr s) ->
  build popen kwargs w = (Raise TypeError, w1) /\ disk w1 = disk w.
Proof.
  intros Hconfigure Hread Hx. split.
  - unfold build, mbind, Eff_bind. rewrite Hconfigure.
    unfold _write_config, mbind, Eff_bind, get, lift. rewrite Hread.
    destruct x; try reflexivity. now destruct (Hx s).
  - unfold on_this in Hconfigure.
    destruct (configure kwargs (this w)) as [result self1].
    now injection Hconfigure as _ <-.
Qed.

Lemma build_kaniko_path_not_string_witness :
  build (exits_with 0 []) [(lit "kaniko_path", VNone)] fresh_world
  = (Raise TypeError,
     {| this := with_attribute __init__ (lit "kaniko_path") VNone;
        disk := disk fresh_world |}).
Proof.
  refine (proj1 (build_kaniko_path_not_string _ _ fresh_world _ VNone _ _ _)).
  - vm_compute. reflexivity.
  - vm_compute. reflexivity.
  - discriminate.
Defined.

Lemma M_bind_Raise {A B} (m : M A) (f : A -> M B) (e : exn) :
  m ≫= f = Raise e -> m = Raise e \/ exists a, m = Ok a /\ f a = Raise e.
Proof.
  destruct m as [a | e' |]; simpl; intros H; try discriminate.
  - right. eauto.
  - left. now injection H as ->.
Qed.

(** When the document cannot be made, the file has already been opened
    for writing: it is left empty. *)
Lemma write_config_Raise (w : World) (kaniko_path : str) (e : exn) :
  read (this w) (lit "kaniko_path") = Ok (VStr kaniko_path) ->
  fsencode_error kaniko_path = None ->
  _make_config (this w) ≫= json_dumps = Raise e ->
  let folder := posix_join kaniko_path (lit ".docker") in
  let path := posix_join folder (lit "config.json") in
  refuses (disk w) (Makedirs folder) = false ->
  refuses (disk w) (OpenForWriting path) = false ->
  exists w',
    _write_config w = (Raise e, w') /\
    files (disk w') !! path = Some [].
Proof.
  intros Hpath Hencode Hconfig folder path Hmakedirs Hopen.
  assert (Hfolder : fsencode_error folder = None)
    by (apply posix_join_encodable; [assumption | reflexivity]).
  assert (Hfile : fsencode_error path = None)
    by (apply posix_join_encodable; [assumption | reflexivity]).
  unfold _write_config, mbind, Eff_bind, get, lift, makedirs, open_for_writing,
    write_file.
  rewrite Hpath. cbn [os_path_join]. fold folder. rewrite Hmakedirs.
  rewrite (makedirs_encode_error_None folder Hfolder).
  cbn [this disk refuses]. fold path. rewrite Hfile, Hopen.
  cbn [with_file this disk refuses].
  apply M_bind_Raise in Hconfig as [Hconfig | (config & Hconfig & Htext)].
  - rewrite Hconfig. eexists. split; [reflexivity |]. apply lookup_insert_eq.
  - rewrite Hconfig, Htext. eexists. split; [reflexivity |]. apply lookup_insert_eq.
Qed.

Lemma build_config_Raise (popen : Popen) (kwargs : list (str * value))
  (w w1 : World) (kaniko_path : str) (e : exn) :
  on_this (configure kwargs) w = (Ok tt, w1) ->
  read (this w1) (lit "kaniko_path") = Ok (VStr kaniko_path) ->
  fsencode_error kaniko_path = None ->
  _make_config (this w1) ≫= json_dumps = Raise e ->
  let folder := posix_join kaniko_path (lit ".docker") in
  let path := posix_join folder (lit "config.json") in
  refuses (disk w1) (Makedirs folder) = false ->
  refuses (disk w1) (OpenForWriting path) = false ->
  (build popen kwargs w).1 = Raise e /\
  files (disk (build popen kwargs w).2) !! path = Some [].
Proof.
  intros Hconfigure Hpath Hencode Hconfig folder path Hmakedirs Hopen.
  destruct (write_config_Raise w1 kaniko_path e Hpath Hencode Hconfig
              Hmakedirs Hopen) as (w2 & Hwrite & Hfile).
  unfold build, mbind, Eff_bind. rewrite Hconfigure, Hwrite. simpl.
  split; [reflexivity | exact Hfile].
Qed.

Lemma encode_ascii_non_ascii (s : str) (c : N) :
  c ∈ s -> 128 <= c -> encode_ascii s = Raise UnicodeEncodeError.
Proof.
  intros Hin Hc. induction s as [| d s IH]; [now apply elem_of_nil in Hin |].
  simpl. destruct (N.ltb_spec d 128) as [Hd | Hd]; [| reflexivity].
  destruct (Byte.of_N d) as [b |]; [| reflexivity].
  apply elem_of_cons in Hin as [-> | Hin]; [lia |].
  now rewrite (IH Hin).
Qed.

Lemma read_registry_setting (self : Kaniko) (name : str) :
  name ∈ registry_settings -> exists x, read self name = Ok x.
Proof.
  intros Hname. unfold registry_settings in Hname. unfold read.
  destruct (__dict__ self !! name) as [x |]; [eauto |].
  repeat (apply elem_of_cons in Hname as [-> | Hname]; [eexists; reflexivity |]).
  now apply elem_of_nil in Hname.
Qed.

(** X14: when the directory can be created and the file opened (the
    path has no NUL character and no lone surrogate, and the operating
    system refuses neither), credentials with a character outside
    ASCII make [build] raise [UnicodeEncodeError] without starting the
    process, and leave the file [config.json] created and empty: it is
    opened for writing before the document is made. *)
Theorem build_non_ascii_credentials (popen : Popen) (kwargs : list (str * value))
  (w w1 : World) (kaniko_path : str) (username password : value) (u p : str)
  (c : N) :
  on_this (configure kwargs) w = (Ok tt, w1) ->
  read (this w1) (lit "kaniko_path") = Ok (VStr kaniko_path) ->
  fsencode_error kaniko_path = None ->
  read (this w1) (lit "registry_username") = Ok username ->
  format_value username = Ok u ->
  read (this w1) (lit "registry_password") = Ok password ->
  format_value password = Ok p ->
  c ∈ u ++ lit ":" ++ p ->
  128 <= c ->
  let folder := posix_join kaniko_path (lit ".docker") in
  let path := posix_join folder (lit "config.json") in
  refuses (disk w1) (Makedirs folder) = false ->
  refuses (disk w1) (OpenForWriting path) = false ->
  (build popen kwargs w).1 = Raise UnicodeEncodeError /\
  files (disk (build popen kwargs w).2) !! path = Some [].
Proof.
  intros Hconfigure Hpath Hencode Husername Hu Hpassword Hp Hin Hc
    folder path Hmakedirs Hopen.
  apply (build_config_Raise popen kwargs w w1 kaniko_path); try assumption.
  unfold _make_config.
  destruct (read_registry_setting (this w1) (lit "docker_registry_uri"))
    as [uri Huri]; [compute_done |].
  rewrite Huri, Husername, Hpassword. cbn [mbind M_bind].
  rewrite Hu, Hp. cbn [mbind M_bind].
  now rewrite (encode_ascii_non_ascii _ c Hin Hc).
Qed.

Lemma build_non_ascii_credentials_witness :
  let kwargs := [(lit "registry_password", VStr [0xE9])] in
  (build (exits_with 0 []) kwargs fresh_world).1 = Raise UnicodeEncodeError /\
  files (disk (build (exits_with 0 []) kwargs fresh_world).2)
    !! lit "/kaniko/.docker/config.json" = Some [].
Proof.
  intros kwargs.
  set (w1 := (on_this (configure kwargs) fresh_world).2).
  apply (build_non_ascii_credentials (exits_with 0 []) kwargs fresh_world w1
           (lit "/kaniko") VNone (VStr [0xE9]) (lit "None") [0xE9] 0xE9);
    try (vm_compute; reflexivity).
  - compute_done.
  - discriminate.
Defined.

(** X15: when the directory can be created and the file opened, a
    registry URI that is a list, a tuple, an enumeration member or a
    function is refused as a key of the document: with credentials
    that can be written, [build] raises [TypeError] without starting
    the process and leaves [config.json] empty. *)
Theorem build_registry_uri_not_a_key (popen : Popen) (kwargs : list (str * value))
  (w w1 : World) (kaniko_path : str) (uri username password : value) (u p : str)
  (credentials : list byte) :
  on_this (configure kwargs) w = (Ok tt, w1) ->
  read (this w1) (lit "kaniko_path") = Ok (VStr kaniko_path) ->
  fsencode_error kaniko_path = None ->
  read (this w1) (lit "docker_registry_uri") = Ok uri ->
  json_key uri = Raise TypeError ->
  read (this w1) (lit "registry_username") = Ok username ->
  format_value username = Ok u ->
  read (this w1) (lit "registry_password") = Ok password ->
  format_value password = Ok p ->
  encode_ascii (u ++ lit ":" ++ p) = Ok credentials ->
  let folder := posix_join kaniko_path (lit ".docker") in
  let path := posix_join folder (lit "config.json") in
  refuses (disk w1) (Makedirs folder) = false ->
  refuses (disk w1) (OpenForWriting path) = false ->
  (build popen kwargs w).1 = Raise TypeError /\
  files (disk (build popen kwargs w).2) !! path = Some [].
Proof.
  intros Hconfigure Hpath Hencode Huri Hkey Husername Hu Hpassword Hp Hcredentials
    folder path Hmakedirs Hopen.
  apply (build_config_Raise popen kwargs w w1 kaniko_path); try assumption.
  unfold _make_config.
  rewrite Huri, Husername, Hpassword. cbn [mbind M_bind].
  rewrite Hu, Hp. cbn [mbind M_bind]. rewrite Hcredentials. cbn [mbind M_bind].
  rewrite decode_ascii_b64encode. cbn [mbind M_bind].
  destruct (hashable uri); [| reflexivity].
  cbn [json_dumps mbind M_bind json_key]. now rewrite Hkey.
Qed.

Lemma build_registry_uri_not_a_key_witness :
  let kwargs := [(lit "docker_registry_uri", VList [VStr (lit "a"); VStr (lit "b")])] in
  (build (exits_with 0 []) kwargs fresh_world).1 = Raise TypeError /\
  files (disk (build (exits_with 0 []) kwargs fresh_world).2)
    !! lit "/kaniko/.docker/config.json" = Some [].
Proof.
  intros kwargs.
  set (w1 := (on_this (configure kwargs) fresh_world).2).
  apply (build_registry_uri_not_a_key (exits_with 0 []) kwargs fresh_world w1
           (lit "/kaniko") (VList [VStr (lit "a"); VStr (lit "b")]) VNone VNone
           (lit "None") (lit "None") (bytes "None:None"));
    vm_compute; reflexivity.
Defined.









(** ** More on [_parse_logs] *)

Lemma lstrip_suffix (s : str) : exists spaces, s = spaces ++ lstrip s.
Proof.
  induction s as [| c s [spaces IH]]; simpl; [now exists [] |].
  destruct (isspace c); [| now exists []].
  exists (c :: spaces). simpl. now f_equal.
Qed.

Lemma lstrip_head (s : str) : head_not_space (lstrip s).
Proof.
  induction s as [| c s IH]; simpl; [exact I |].
  destruct (isspace c) eqn:Hc; [exact IH | exact Hc].
Qed.

Lemma lstrip_fixed (s : str) : head_not_space s -> lstrip s = s.
Proof. destruct s as [| c s]; simpl; [reflexivity |]. now intros ->. Qed.

Lemma rstrip_prefix (s : str) : exists spaces, s = rstrip s ++ spaces.
Proof.
  unfold rstrip. destruct (lstrip_suffix (rev s)) as [spaces Hspaces].
  exists (rev spaces). rewrite <- rev_app_distr, <- Hspaces.
  now rewrite rev_involutive.
Qed.

Lemma rstrip_head (s : str) : head_not_space s -> head_not_space (rstrip s).
Proof.
  intros Hs. destruct (rstrip_prefix s) as [spaces Hspaces].
  destruct (rstrip s) as [| c t]; [exact I |].
  rewrite Hspaces in Hs. exact Hs.
Qed.

Lemma rstrip_idempotent (s : str) : rstrip (rstrip s) = rstrip s.
Proof.
  unfold rstrip. rewrite rev_involutive.
  now rewrite (lstrip_fixed _ (lstrip_head (rev s))).
Qed.

Lemma strip_idempotent (s : str) : strip (strip s) = strip s.
Proof.
  unfold strip.
  rewrite (lstrip_fixed (rstrip (lstrip s))) by apply rstrip_head, lstrip_head.
  apply rstrip_idempotent.
Qed.

Lemma elem_of_lstrip (c : N) (s : str) : c ∈ lstrip s -> c ∈ s.
Proof.
  destruct (lstrip_suffix s) as [spaces Hspaces]. intros Hc.
  rewrite Hspaces. apply elem_of_app. now right.
Qed.

Lemma elem_of_rev (c : N) (s : str) : c ∈ rev s <-> c ∈ s.
Proof. rewrite !list_elem_of_In. symmetry. apply in_rev. Qed.

Lemma elem_of_strip (c : N) (s : str) : c ∈ strip s -> c ∈ s.
Proof.
  unfold strip, rstrip. intros Hc.
  apply elem_of_lstrip. apply (proj1 (elem_of_rev c _)).
  apply elem_of_lstrip. now apply (proj1 (elem_of_rev c _)).
Qed.

Lemma split_rows_no_sep (sep : N) (s : str) :
  Forall (fun r => sep ∉ r) (split sep s).
Proof.
  induction s as [| c s IH]; simpl.
  - repeat constructor. apply not_elem_of_nil.
  - destruct (N.eqb_spec c sep) as [-> | Hne].
    + constructor; [apply not_elem_of_nil | assumption].
    + destruct (split sep s) as [| field fields]; [repeat constructor |].
      * intros Hin. apply elem_of_cons in Hin as [-> | Hin]; [congruence |].
        now apply elem_of_nil in Hin.
      * apply Forall_cons in IH as [Hfield Hfields].
        constructor; [| assumption].
        intros Hin. apply elem_of_cons in Hin as [-> | Hin]; [congruence | auto].
Qed.

(** X16: every entry [_parse_logs] returns is a single stripped line:
    it contains no line feed, and stripping it again changes nothing,
    so it neither starts nor ends with whitespace. *)
Theorem parse_logs_rows_stripped (logs : list byte) (rows : list str) :
  _parse_logs logs = Ok rows ->
  Forall (fun row => (0x0A ∉ row) /\ strip row = row /\ head_not_space row) rows.
Proof.
  unfold _parse_logs. intros H.
  apply M_bind_Ok in H as (text & _ & [= <-]).
  pose proof (split_rows_no_sep 0x0A (strip text)) as Hrows.
  induction Hrows as [| r rs Hr _ IH]; simpl; constructor; [| exact IH].
  split; [| split].
  - intros Hin. apply Hr. now apply elem_of_strip.
  - apply strip_idempotent.
  - apply rstrip_head, lstrip_head.
Qed.

Lemma parse_logs_rows_stripped_witness :
  _parse_logs test_logs = Ok [lit "some"; lit "little"; lit "strings"] /\
  Forall (fun row => (0x0A ∉ row) /\ strip row = row /\ head_not_space row)
    [lit "some"; lit "little"; lit "strings"].
Proof.
  assert (H : _parse_logs test_logs = Ok [lit "some"; lit "little"; lit "strings"])
    by (vm_compute; reflexivity).
  split; [exact H |]. exact (parse_logs_rows_stripped _ _ H).
Defined.

Lemma length_split (sep : N) (s : str) :
  length (split sep s) = S (length (List.filter (fun c => c =? sep) s)).
Proof.
  induction s as [| c s IH]; simpl; [reflexivity |].
  destruct (c =? sep); simpl; [now rewrite IH |].
  rewrite <- IH. now destruct (split sep s).
Qed.

(** X17: on valid UTF-8 [_parse_logs] returns one entry more than
    there are line feeds in the text once it is stripped: leading and
    trailing blank lines are gone, every other line has its entry. *)
Theorem parse_logs_row_count (logs : list byte) (text : str) :
  decode_utf8 logs = Ok text ->
  exists rows,
    _parse_logs logs = Ok rows /\
    length rows = S (length (List.filter (fun c => c =? 0x0A) (strip text))).
Proof.
  intros Hdecode. unfold _parse_logs. rewrite Hdecode. simpl.
  eexists. split; [reflexivity |]. now rewrite length_map, length_split.
Qed.

Lemma parse_logs_row_count_witness :
  decode_utf8 test_logs
  = Ok ([0x0A] ++ lit "some" ++ [0x0A] ++ lit " little" ++ [0x0A]
        ++ lit " strings " ++ [0x0A]) /\
  exists rows, _parse_logs test_logs = Ok rows /\ length rows = 3%nat.
Proof.
  assert (H : decode_utf8 test_logs
              = Ok ([0x0A] ++ lit "some" ++ [0x0A] ++ lit " little" ++ [0x0A]
                    ++ lit " strings " ++ [0x0A]))
    by (vm_compute; reflexivity).
  split; [exact H |].
  destruct (parse_logs_row_count _ _ H) as (rows & Hrows & Hlength).
  exists rows. split; [exact Hrows |]. rewrite Hlength. vm_compute. reflexivity.
Defined.
